(** * Source configuration service client: a shallow embedding

    The development follows the Go sources of the client:
    - [types.go]: the item [I], the item list [IL] and their typed
      conversions;
    - the client file (current revision, built on go-retryablehttp):
      [ClientOptions], [New], [Save], the pop operations, [Tag], [Untag];
    - the earlier revision of the client file (built on net/http), whose
      [Save] shares the key sequencing code.

    Go strings are byte sequences and are modelled by [string]; byte slices
    are [list Byte.byte]; a Go [error] is [option string] ([None] is nil);
    [int] and [time.Duration] are [Z]. *)

From Stdlib Require Import ZArith Ascii Lia.
From Stdlib Require String.
From stdpp Require Import base option list gmap strings.

Local Open Scope Z_scope.

Definition bytes := list Byte.byte.

(** A Go [error] value: nil, or an error carrying its message. *)
Definition error := option string.

(* ===================================================================== *)
(** * Package strings: the functions the client calls *)
(* ===================================================================== *)

Module strings.

(** [s[n:]] and [s[:n]] *)
Fixpoint drop (n : nat) (s : string) : string :=
  match n, s with
  | O, _ => s
  | S _, EmptyString => EmptyString
  | S n', String _ s' => drop n' s'
  end.

Fixpoint take (n : nat) (s : string) : string :=
  match n, s with
  | O, _ => EmptyString
  | S _, EmptyString => EmptyString
  | S n', String c s' => String c (take n' s')
  end.

Fixpoint HasPrefix (s prefix : string) {struct prefix} : bool :=
  match prefix, s with
  | EmptyString, _ => true
  | String _ _, EmptyString => false
  | String p ps, String c cs => if Ascii.eqb c p then HasPrefix cs ps else false
  end.

(** [strings.Index]: the byte offset of the first instance of [substr] in
    [s]; Go's -1 is [None] here. *)
Fixpoint Index (s substr : string) : option nat :=
  if HasPrefix s substr then Some O
  else match s with
       | EmptyString => None
       | String _ s' => S <$> Index s' substr
       end.

(** [strings.Contains(s, substr)] is [Index(s, substr) >= 0]. *)
Definition Contains (s substr : string) : bool :=
  match Index s substr with Some _ => true | None => false end.

(** [strings.Replace(s, old, new, n)] for a non-empty [old] and [n >= 0]
    (the client calls it with ["?"] and [1]): the first [n] non-overlapping
    instances of [old] are replaced by [new], left to right. *)
Fixpoint Replace (s old new : string) (n : nat) : string :=
  match n with
  | O => s
  | S n' =>
      match Index s old with
      | None => s
      | Some j =>
          take j s +:+ new +:+ Replace (drop (j + String.length old) s) old new n'
      end
  end.

End strings.

(** [fmt.Sprintf] restricted to the verb the client uses, [%s] with string
    operands, consumed left to right; every call site passes as many
    operands as the format has verbs. *)
Fixpoint Sprintf (format : string) (args : list string) : string :=
  match format with
  | EmptyString => EmptyString
  | String "%" (String "s" rest) =>
      match args with
      | a :: args' => a +:+ Sprintf rest args'
      | [] => "%!s(MISSING)" +:+ Sprintf rest []
      end
  | String c rest => String c (Sprintf rest args)
  end.

(* ===================================================================== *)
(** * Package time: durations, UTC wall clock, [Format] *)
(* ===================================================================== *)

Module time.

(** [time.Duration] is an int64 count of nanoseconds. *)
Definition Duration := Z.

Definition Nanosecond : Duration := 1.
Definition Microsecond : Duration := 1000 * Nanosecond.
Definition Millisecond : Duration := 1000 * Microsecond.
Definition Second : Duration := 1000 * Millisecond.

(** A [time.Time] in UTC, by its calendar fields. *)
Record Time := mkTime {
  Year : Z; Month : Z; Day : Z;
  Hour : Z; Minute : Z; Sec : Z;
  Nano : Z
}.

Definition digit (d : Z) : ascii := ascii_of_nat (48 + Z.to_nat d).

(** Decimal digits of [n >= 0], most significant first. *)
Fixpoint utoa (fuel : nat) (n : Z) : string :=
  match fuel with
  | O => EmptyString
  | S fuel' =>
      if n <? 10 then String (digit n) EmptyString
      else utoa fuel' (n / 10) +:+ String (digit (n mod 10)) EmptyString
  end.

Fixpoint zeros (k : nat) : string :=
  match k with
  | O => EmptyString
  | S k' => String "0" (zeros k')
  end.

(** [appendInt(b, x, width)]: the decimal form of [x], zero-padded on the
    left to [width] digits, with a leading minus sign when negative. *)
Definition appendInt (x : Z) (width : nat) : string :=
  let u := Z.abs x in
  let ds := utoa (S (Z.to_nat (Z.log2 u))) u in
  (if x <? 0 then "-" else EmptyString) +:+ zeros (width - String.length ds) +:+ ds.

(** [t.Format("20060102150405.000")]: year, month, day, hour, minute and
    second, then a point and the milliseconds: the fractional second
    truncated to three digits. *)
Definition Format_20060102150405_000 (t : Time) : string :=
  appendInt (Year t) 4 +:+ appendInt (Month t) 2 +:+ appendInt (Day t) 2 +:+
  appendInt (Hour t) 2 +:+ appendInt (Minute t) 2 +:+ appendInt (Sec t) 2 +:+
  "." +:+ appendInt (Nano t / 1000000) 3.

(** The calendar fields of a [Time] as the runtime produces them. *)
Definition wellFormed (t : Time) : Prop :=
  0 <= Year t <= 9999 /\ 1 <= Month t <= 12 /\ 1 <= Day t <= 31 /\
  0 <= Hour t <= 23 /\ 0 <= Minute t <= 59 /\ 0 <= Sec t <= 59 /\
  0 <= Nano t <= 999999999.

End time.

(** The key sequencing block of [Save]:
<<
    if strings.Contains(key, "?") {
        now := time.Now().UTC().Format("20060102150405.000")
        key = strings.Replace(key, "?", now, 1)
    }
>>
    [now] is the UTC wall clock read by the call. *)
Definition resolveKey (now : time.Time) (key : string) : string :=
  if strings.Contains key "?" then
    strings.Replace key "?" (time.Format_20060102150405_000 now) 1
  else key.

(* ===================================================================== *)
(** * Values behind interfaces *)
(* ===================================================================== *)

(** [reflect.Kind], as far as the client tells kinds apart. *)
Inductive Kind := Invalid | Bool | Int | String_ | Slice | Map | Struct | Ptr.

Definition Kind_eqb (a b : Kind) : bool :=
  match a, b with
  | Invalid, Invalid | Bool, Bool | Int, Int | String_, String_
  | Slice, Slice | Map, Map | Struct, Struct | Ptr, Ptr => true
  | _, _ => false
  end.

(** A heap address: the target of a Go pointer. *)
Definition loc := nat.

(** A value of type [any] as the client sees it. *)
Inductive any :=
| Nil                 (** the nil interface *)
| NilPtr              (** a nil pointer held in an interface: not the nil interface *)
| PtrTo (l : loc)     (** a pointer to the heap slot [l] *)
| Boxed (k : Kind).   (** a copy of a value that is not a pointer *)

(** [reflect.ValueOf(x).Kind()] *)
Definition reflect_Kind (x : any) : Kind :=
  match x with
  | Nil => Invalid
  | NilPtr | PtrTo _ => Ptr
  | Boxed k => k
  end.

Definition isNil (x : any) : bool :=
  match x with Nil => true | _ => false end.

(** The two-valued return of a library call, [(v, nil)] or [(zero, err)]. *)
Inductive result (A : Type) :=
| Ok (a : A)
| Err (e : string).
Arguments Ok {A} a.
Arguments Err {A} e.

(** The interface [Valid] of the items accepted by [Save]; its declaration
    is not among the sources, [Save] uses it as [item.Validate()]. *)
Class Valid (A : Type) := { Validate : A -> error }.

(** What [Save] asks of the dynamic value of an item: its kind
    ([reflect.ValueOf(item).Kind()]) and its encoding ([json.Marshal(item)]). *)
Class Item (A : Type) := {
  KindOf : A -> Kind;
  Marshal : A -> result bytes
}.


(* ===================================================================== *)
(** * Requests, responses and the heap *)
(* ===================================================================== *)

Record Request := mkRequest {
  Method : string;
  URL : string;
  Header : gmap string string;
  Body : option bytes
}.

(** [request.Header.Set(k, v)] *)
Definition Header_Set (k v : string) (r : Request) : Request :=
  {| Method := Method r; URL := URL r; Header := <[k := v]> (Header r); Body := Body r |}.

Record Response := mkResponse {
  StatusCode : Z;
  Status : string;               (** the status text, e.g. "404 Not Found" *)
  ReadAll_Body : result bytes    (** what [io.ReadAll(resp.Body)] returns *)
}.

Definition StatusNotFound : Z := 404.

Inductive Event :=
| Built (r : Request)   (** a request value was constructed *)
| Sent (r : Request).   (** one round trip over the network *)

Definition isSent (e : Event) : bool :=
  match e with Sent _ => true | Built _ => false end.

(** [I], the definition of an item *)
Record I := mkI {
  Key : string;
  Type_ : string;
  Value : bytes;
  Updated : time.Time
}.

Definition IL := list I.

(** [ClientOptions] *)
Record ClientOptions := mkClientOptions {
  InsecureSkipVerify : bool;
  Timeout : time.Duration
}.

(** The [http.Client] the constructor fills in: the TLS setting of its
    transport and its timeout. *)
Record http_Client := mkHttpClient {
  TLS_InsecureSkipVerify : bool;
  http_Timeout : time.Duration
}.

(** The [retryablehttp.Client], by the fields the constructor sets. *)
Record retryablehttp_Client := mkRetryable {
  HTTPClient : http_Client;
  RetryMax : Z
}.

(** What the client code takes from its libraries and from the outside:
    the codecs, the clock, the network and the retry policy. *)
Class Env := {
  (** the heap that prototypes point into *)
  Heap : Type;
  (** [json.Unmarshal(data, v)] for a [v] of type [any]: writes through the
      pointer held by [v] and reports an error *)
  json_Unmarshal : bytes -> any -> Heap -> Heap * error;
  (** [json.Unmarshal(body, item)] for a fresh [item := new(I)] *)
  json_Unmarshal_I : bytes -> result I;
  (** the constant [Version], declared outside the sources *)
  Version : string;
  (** [base64.StdEncoding.EncodeToString] *)
  base64_EncodeToString : string -> string;
  (** [retryablehttp.NewClient()] *)
  retryablehttp_NewClient : retryablehttp_Client;
  (** [time.Now().UTC()] as read by the call *)
  time_Now_UTC : time.Time;
  (** the error of [NewRequest(method, url, body)]: nil for a URL that parses *)
  NewRequest_err : string -> string -> error;
  (** one round trip of the underlying [http.Client]; the number is the
      count of round trips made before it *)
  RoundTrip : nat -> Request -> result Response;
  (** the retry policy: whether the outcome of a round trip is transient *)
  CheckRetry : result Response -> bool
}.

Section Program.

Context `{Env}.

Record World := mkWorld {
  trace : list Event;   (** oldest first *)
  heap : Heap
}.

Definition sent (w : World) : list Event :=
  filter (fun e => isSent e = true) (trace w).

(** Effectful client code: a state monad over the world. *)
Definition M (A : Type) : Type := World -> A * World.

#[export] Instance M_ret : MRet M := fun A a w => (a, w).
#[export] Instance M_bind : MBind M :=
  fun A B k m w => let (a, w') := m w in k a w'.

Definition emit (e : Event) : M unit :=
  fun w => (tt, {| trace := trace w ++ [e]; heap := heap w |}).

(** A Go function that only touches the heap, such as a factory. *)
Definition onHeap {A} (f : Heap -> A * Heap) : M A :=
  fun w => let (a, h) := f (heap w) in (a, {| trace := trace w; heap := h |}).

Definition Unmarshal (data : bytes) (v : any) : M error :=
  onHeap (fun h => let (h', err) := json_Unmarshal data v h in (err, h')).

(* --------------------------------------------------------------------- *)
(** ** types.go *)
(* --------------------------------------------------------------------- *)

(** [func (i *I) Typed(item any) (result any, err error)] *)
Definition Typed (i : I) (item : any) : M (any * error) :=
  err ← Unmarshal (Value i) item;
  let result := item in
  mret (result, err).

(** [func convert(i I, factory func() any) (any, error)] *)
Definition convert (i : I) (factory : Heap -> any * Heap) : M (any * error) :=
  t ← onHeap factory;
  err ← Unmarshal (Value i) t;
  mret (t, err).

(** The loop of [IL.Typed] over the items that remain; [ii] is the slice
    appended to so far. *)
Fixpoint Typed_range (items : list I) (factory : Heap -> any * Heap)
    (ii : list any) : M (list any * error) :=
  match items with
  | [] => mret (ii, None)
  | item :: rest =>
      '(i, err) ← convert item factory;
      match err with
      | Some e => mret ([], Some e)
      | None => Typed_range rest factory (ii ++ [i])
      end
  end.

(** [func (items IL) Typed(factory func() any) ([]any, error)]; a nil slice
    is the empty list. *)
Definition IL_Typed (items : IL) (factory : Heap -> any * Heap)
  : M (list any * error) :=
  Typed_range items factory [].

(* --------------------------------------------------------------------- *)
(** ** The client: options and constructor *)
(* --------------------------------------------------------------------- *)

(** [var UserAgent = fmt.Sprintf("SW-SOURCE-CLIENT-%s", Version)] *)
Definition UserAgent : string := Sprintf "SW-SOURCE-CLIENT-%s" [Version].

(** [func (o ClientOptions) Validate() error] *)
Definition ClientOptions_Validate (o : ClientOptions) : error :=
  if Timeout o <? 30 * time.Second then
    Some "timeout must be greater than 30 secs"
  else None.

Definition defaultOptions : ClientOptions :=
  {| InsecureSkipVerify := true; Timeout := 60 * time.Second |}.

(** [Client]: the embedded retrying client, the host and the token *)
Record Client := mkClient {
  retryable : retryablehttp_Client;
  host : string;
  token : string
}.

Definition basicToken (user pwd : string) : string :=
  Sprintf "Basic %s" [base64_EncodeToString (Sprintf "%s:%s" [user; pwd])].

(** [func New(host, user, pwd string, opts *ClientOptions) *Client]; a nil
    [opts] is [None]. *)
Definition New (host user pwd : string) (opts : option ClientOptions) : Client :=
  let opts := match opts with None => defaultOptions | Some o => o end in
  let c := retryablehttp_NewClient in
  let c := {| HTTPClient := HTTPClient c; RetryMax := 20 |} in
  let c := {| HTTPClient := {| TLS_InsecureSkipVerify := InsecureSkipVerify opts;
                               http_Timeout := Timeout opts |};
              RetryMax := RetryMax c |} in
  {| host := host; token := basicToken user pwd; retryable := c |}.

(** [func (c *Client) url(format string, args ...any) string] *)
Definition url (c : Client) (format : string) (args : list string) : string :=
  let v := Sprintf "%s%s" [host c; Sprintf format args] in
  v.

(* --------------------------------------------------------------------- *)
(** ** The request executor *)
(* --------------------------------------------------------------------- *)

(** [retryablehttp.NewRequest(method, url, body)] *)
Definition NewRequest (method url : string) (body : option bytes) : M (result Request) :=
  match NewRequest_err method url with
  | Some e => mret (Err e)
  | None =>
      let r := {| Method := method; URL := url; Header := ∅; Body := body |} in
      _ ← emit (Built r);
      mret (Ok r)
  end.

(** One round trip of the underlying HTTP client. *)
Definition roundTrip (req : Request) : M (result Response) :=
  fun w =>
    (RoundTrip (length (sent w)) req,
     {| trace := trace w ++ [Sent req]; heap := heap w |}).

(** Modelled from the spec: the retry loop of the request executor, the
    [Do] of the embedded retrying client, which is not among the sources.
    The spec: on transient transport failures or retryable response
    statuses it retries up to a bounded maximum attempt count; a failure
    that is not transient is returned at once; a transient failure that
    persists past the retry budget is returned as an error. [retries] is
    the number of retries left. *)
Fixpoint attempts (retries : nat) (req : Request) : M (result Response) :=
  out ← roundTrip req;
  if CheckRetry out then
    match retries with
    | O =>
        mret (Err (match out with
                   | Err e => "giving up: " +:+ e
                   | Ok resp => "giving up: " +:+ Status resp
                   end))
    | S retries' => attempts retries' req
    end
  else mret out.

(** [c.Do(request)]: the retry budget is the [RetryMax] of the client. *)
Definition Do (c : Client) (req : Request) : M (result Response) :=
  attempts (Z.to_nat (RetryMax (retryable c))) req.

(* --------------------------------------------------------------------- *)
(** ** Save *)
(* --------------------------------------------------------------------- *)

(** [func (c *Client) Save(key, itemType string, item Valid) error] *)
Definition Save {A} `{Valid A, Item A} (c : Client) (key itemType : string) (item : A)
  : M error :=
  match Validate item with
  | Some err => mret (Some err)
  | None =>
  if Kind_eqb (KindOf item) Ptr then
    mret (Some "item argument passed to Save() must not be a pointer")
  else if (String.length itemType =? 0)%nat then
    mret (Some "item type is required to validate the item data")
  else
  let key := resolveKey time_Now_UTC key in
  match Marshal item with
  | Err err => mret (Some err)
  | Ok objBytes =>
  request ← NewRequest "PUT" (url c "/item/%s" [key]) (Some objBytes);
  match request with
  | Err err => mret (Some err)
  | Ok request =>
  let request := Header_Set "Authorization" (token c) request in
  let request := Header_Set "User-Agent" UserAgent request in
  let request :=
    if (0 <? String.length itemType)%nat
    then Header_Set "Source-Type" itemType request else request in
  resp ← Do c request;
  match resp with
  | Err reqErr => mret (Some reqErr)
  | Ok resp =>
  if 299 <? StatusCode resp then
    let msg :=
      match ReadAll_Body resp with
      | Ok body =>
          if (0 <? length body)%nat then String.string_of_list_byte body
          else EmptyString
      | Err _ => EmptyString
      end in
    mret (Some (Sprintf "cannot save item, source server responded with: %s, %s"
                  [Status resp; msg]))
  else mret None
  end end end end.

(* --------------------------------------------------------------------- *)
(** ** Pop *)
(* --------------------------------------------------------------------- *)

(** [func (c *Client) PopOldestRaw(itemType string)], returning a [*I] and an
    error; a nil [*I] is [None]. *)
Definition PopOldestRaw (c : Client) (itemType : string) : M (option I * error) :=
  request ← NewRequest "DELETE" (url c "/item/pop/oldest/%s" [itemType]) None;
  match request with
  | Err err => mret (None, Some err)
  | Ok request =>
  let request := Header_Set "Authorization" (token c) request in
  let request := Header_Set "User-Agent" UserAgent request in
  resp ← Do c request;
  match resp with
  | Err reqErr => mret (None, Some reqErr)
  | Ok resp =>
  if StatusCode resp =? StatusNotFound then mret (None, None)
  else if 299 <? StatusCode resp then
    mret (None, Some (Sprintf "cannot get item, source server responded with: %s"
                        [Status resp]))
  else
  match ReadAll_Body resp with
  | Err readErr =>
      mret (None, Some (Sprintf "cannot read response body: %s" [readErr]))
  | Ok body =>
  match json_Unmarshal_I body with
  | Err err => mret (None, Some (Sprintf "cannot unmarshal response body: %s" [err]))
  | Ok item => mret (Some item, None)
  end end end end.

(** [func (c *Client) PopNewestRaw(itemType string)], returning a [*I] and an
    error; a nil [*I] is [None]. *)
Definition PopNewestRaw (c : Client) (itemType : string) : M (option I * error) :=
  request ← NewRequest "DELETE" (url c "/item/pop/newest/%s" [itemType]) None;
  match request with
  | Err err => mret (None, Some err)
  | Ok request =>
  let request := Header_Set "Authorization" (token c) request in
  let request := Header_Set "User-Agent" UserAgent request in
  resp ← Do c request;
  match resp with
  | Err reqErr => mret (None, Some reqErr)
  | Ok resp =>
  if StatusCode resp =? StatusNotFound then mret (None, None)
  else if 299 <? StatusCode resp then
    mret (None, Some (Sprintf "cannot get item, source server responded with: %s"
                        [Status resp]))
  else
  match ReadAll_Body resp with
  | Err readErr =>
      mret (None, Some (Sprintf "cannot read response body: %s" [readErr]))
  | Ok body =>
  match json_Unmarshal_I body with
  | Err err => mret (None, Some (Sprintf "cannot unmarshal response body: %s" [err]))
  | Ok item => mret (Some item, None)
  end end end end.

(** [func (c *Client) PopOldest(itemType string, prototype any) (any, error)] *)
Definition PopOldest (c : Client) (itemType : string) (prototype : any)
  : M (any * error) :=
  if negb (Kind_eqb (reflect_Kind prototype) Ptr) then
    mret (Nil, Some "prototype argument passed to PopOldest() must be a pointer")
  else
  '(i, err) ← PopOldestRaw c itemType;
  match err with
  | Some err => mret (Nil, Some err)
  | None =>
  match i with
  | None => mret (Nil, None)
  | Some i => Typed i prototype
  end end.

(** [func (c *Client) PopNewest(itemType string, prototype any) (any, error)];
    the body calls [c.PopOldestRaw], and on an empty result returns the nil
    [*I] itself. *)
Definition PopNewest (c : Client) (itemType : string) (prototype : any)
  : M (any * error) :=
  if negb (Kind_eqb (reflect_Kind prototype) Ptr) then
    mret (Nil, Some "prototype argument passed to PopNewest() must be a pointer")
  else
  '(i, err) ← PopOldestRaw c itemType;
  match err with
  | Some err => mret (Nil, Some err)
  | None =>
  match i with
  | None => mret (NilPtr, None)
  | Some i => Typed i prototype
  end end.

(* --------------------------------------------------------------------- *)
(** ** Tags *)
(* --------------------------------------------------------------------- *)

(** [func (c *Client) Tag(itemKey, tagName, tagValue string) error] *)
Definition Tag (c : Client) (itemKey tagName tagValue : string) : M error :=
  if (0 <? String.length tagName)%nat then
    let tag :=
      if (0 <? String.length tagValue)%nat
      then Sprintf "%s|%s" [tagName; tagValue]
      else tagName in
    request ← NewRequest "PUT" (url c "/item/%s/tag/%s" [itemKey; tag]) None;
    match request with
    | Err err => mret (Some err)
    | Ok request =>
    let request := Header_Set "Authorization" (token c) request in
    let request := Header_Set "User-Agent" UserAgent request in
    resp ← Do c request;
    match resp with
    | Err reqErr => mret (Some reqErr)
    | Ok resp =>
    if 299 <? StatusCode resp then
      mret (Some (Sprintf "cannot tag item, source server responded with: %s"
                    [Status resp]))
    else mret None
    end end
  else mret (Some "a tag name is required").

(** [func (c *Client) Untag(itemKey, tagName string) error] *)
Definition Untag (c : Client) (itemKey tagName : string) : M error :=
  if (String.length tagName =? 0)%nat then mret (Some "a tag name is required")
  else
  request ← NewRequest "DELETE" (url c "/item/%s/tag/%s" [itemKey; tagName]) None;
  match request with
  | Err err => mret (Some err)
  | Ok request =>
  let request := Header_Set "Authorization" (token c) request in
  let request := Header_Set "User-Agent" UserAgent request in
  resp ← Do c request;
  match resp with
  | Err reqErr => mret (Some reqErr)
  | Ok resp =>
  if 299 <? StatusCode resp then
    mret (Some (Sprintf "cannot tag item, source server responded with: %s"
                  [Status resp]))
  else mret None
  end end.

End Program.

Arguments World : clear implicits.
Arguments World {_}.

(* ===================================================================== *)
(** * The earlier revision of the client, on net/http *)
(* ===================================================================== *)

Module Legacy.
Section Program.

Context `{Env}.

(** [Client]: the embedded [http.Client], the host and the token *)
Record Client := mkClient {
  http : http_Client;
  host : string;
  token : string
}.

(** [func New(host, user, pwd string, opts *ClientOptions) Client] *)
Definition New (host user pwd : string) (opts : option ClientOptions) : Client :=
  let opts := match opts with None => defaultOptions | Some o => o end in
  {| host := host;
     token := basicToken user pwd;
     http := {| TLS_InsecureSkipVerify := InsecureSkipVerify opts;
                http_Timeout := Timeout opts |} |}.

Definition url (c : Client) (format : string) (args : list string) : string :=
  let v := Sprintf "%s%s" [host c; Sprintf format args] in
  v.

(** [c.Do(request)] of the embedded [http.Client]: one round trip. *)
Definition Do (c : Client) (req : Request) : M (result Response) :=
  roundTrip req.

(** [func (c *Client) Save(key, itemType string, item any) error] *)
Definition Save {A} `{Item A} (c : Client) (key itemType : string) (item : A)
  : M error :=
  if (String.length itemType =? 0)%nat then
    mret (Some "item type is required to validate the item data")
  else
  let key := resolveKey time_Now_UTC key in
  match Marshal item with
  | Err err => mret (Some err)
  | Ok objBytes =>
  request ← NewRequest "PUT" (url c "/item/%s" [key]) (Some objBytes);
  match request with
  | Err err => mret (Some err)
  | Ok request =>
  let request := Header_Set "Authorization" (token c) request in
  let request := Header_Set "User-Agent" UserAgent request in
  let request :=
    if (0 <? String.length itemType)%nat
    then Header_Set "Source-Type" itemType request else request in
  resp ← Do c request;
  match resp with
  | Err reqErr => mret (Some reqErr)
  | Ok resp =>
  if 299 <? StatusCode resp then
    mret (Some (Sprintf "cannot save item, source server responded with: %s"
                  [Status resp]))
  else mret None
  end end end.

End Program.
End Legacy.

(* ===================================================================== *)
(** * Instances: the items of the tests, and a test bench *)
(* ===================================================================== *)

Definition quoted (s : string) : string :=
  let q := String (ascii_of_nat 34) EmptyString in q +:+ s +:+ q.

(** [json.Marshal] of a [ClientOptions]: an object with the two exported
    fields in declaration order, the duration as an integer. *)
Definition ClientOptions_json (o : ClientOptions) : string :=
  "{" +:+ quoted "InsecureSkipVerify" +:+ ":" +:+
  (if InsecureSkipVerify o then "true" else "false") +:+ "," +:+
  quoted "Timeout" +:+ ":" +:+ time.appendInt (Timeout o) 0 +:+ "}".

#[export] Instance ClientOptions_Valid : Valid ClientOptions :=
  {| Validate := ClientOptions_Validate |}.

#[export] Instance ClientOptions_Item : Item ClientOptions :=
  {| KindOf := fun _ => Struct;
     Marshal := fun o => Ok (String.list_byte_of_string (ClientOptions_json o)) |}.

(** A pointer to an item, [&v]: the methods of the pointee are promoted to
    it, its kind is [Ptr] and it is encoded as its pointee. *)
Record Ref (A : Type) := mkRef { pointee : A }.
Arguments mkRef {A} pointee.
Arguments pointee {A} r.

#[export] Instance Ref_Valid {A} `{Valid A} : Valid (Ref A) :=
  {| Validate := fun r => Validate (pointee r) |}.

#[export] Instance Ref_Item {A} `{Item A} : Item (Ref A) :=
  {| KindOf := fun _ => Ptr;
     Marshal := fun r => Marshal (pointee r) |}.

(** A test bench: a server that answers every round trip as [answer] says,
    a decoder that stores the payload in the slot pointed to and rejects
    the empty payload, and a fixed clock. *)
Definition bench (answer : nat -> Request -> result Response)
    (transient : result Response -> bool) : Env :=
  {| Heap := gmap loc bytes;
     json_Unmarshal := fun data v h =>
       match v with
       | PtrTo l =>
           match data with
           | [] => (h, Some "unexpected end of JSON input")
           | _ => (<[l := data]> h, None)
           end
       | _ => (h, Some "json: Unmarshal(non-pointer)")
       end;
     json_Unmarshal_I := fun body =>
       match body with
       | [] => Err "unexpected end of JSON input"
       | _ => Ok {| Key := "OPT_1"; Type_ := "AAA"; Value := body;
                    Updated := time.mkTime 2022 9 5 7 3 9 0 |}
       end;
     Version := "1.0.0";
     base64_EncodeToString := fun s => s;
     retryablehttp_NewClient :=
       {| HTTPClient := {| TLS_InsecureSkipVerify := false; http_Timeout := 0 |};
          RetryMax := 4 |};
     time_Now_UTC := time.mkTime 2022 9 5 7 3 9 45678901;
     NewRequest_err := fun _ _ => None;
     RoundTrip := answer;
     CheckRetry := transient |}.

(* ===================================================================== *)
(** * Specifications *)
(* ===================================================================== *)

(** The key sequencer as the specification words it: a pattern without the
    wildcard marker is returned unchanged; otherwise the first marker, the
    one with no marker before it, is replaced by the timestamp, and what
    stands before and after it is kept. *)
Inductive resolveKey_spec (stamp : string) : string -> string -> Prop :=
| resolve_unchanged (key : string) :
    strings.Contains key "?" = false ->
    resolveKey_spec stamp key key
| resolve_first (before after : string) :
    strings.Contains before "?" = false ->
    resolveKey_spec stamp (before +:+ "?" +:+ after) (before +:+ stamp +:+ after).

(** Occurrences of a byte in a string. *)
Fixpoint occurrences (c : ascii) (s : string) : nat :=
  match s with
  | EmptyString => O
  | String a s' => ((if Ascii.eqb a c then 1 else 0) + occurrences c s')%nat
  end.

Definition requestOf (e : Event) : Request :=
  match e with Built r => r | Sent r => r end.

(** The events a computation appended to the trace. *)
Definition added `{Env} (w w' : World) : list Event :=
  drop (length (trace w)) (trace w').

Definition countSent (evs : list Event) : nat :=
  length (filter (fun e => isSent e = true) evs).

(** [w'] continues [w] by events whose requests all satisfy [P], at most
    [budget] of them round trips. *)
Definition dispatches `{Env} (P : Request -> Prop) (budget : nat) (w w' : World) : Prop :=
  exists evs, trace w' = trace w ++ evs /\
              Forall (fun e => P (requestOf e)) evs /\
              (countSent evs <= budget)%nat.

Section Conversions.

Context `{Env}.
Variable factory : Heap -> any * Heap.

(** Every item of the list is converted with success, in order, each by a
    call of the factory followed by a decode; the results are kept in the
    order of the items. *)
Inductive AllConverted : World -> list I -> list any -> World -> Prop :=
| AllConverted_nil w : AllConverted w [] [] w
| AllConverted_cons w item rest t w1 ts w2 :
    convert item factory w = ((t, None), w1) ->
    AllConverted w1 rest ts w2 ->
    AllConverted w (item :: rest) (t :: ts) w2.

(** The conversion of some item fails with [e], and every item before it
    was converted with success. *)
Inductive FirstFailure : World -> list I -> string -> World -> Prop :=
| FirstFailure_here w item rest t e w1 :
    convert item factory w = ((t, Some e), w1) ->
    FirstFailure w (item :: rest) e w1
| FirstFailure_later w item rest t w1 e w2 :
    convert item factory w = ((t, None), w1) ->
    FirstFailure w1 rest e w2 ->
    FirstFailure w (item :: rest) e w2.

End Conversions.

(** The two pop operations, their routes and their raw functions. *)
Inductive Pop := Oldest | Newest.

Definition popRoute (k : Pop) : string :=
  match k with
  | Oldest => "/item/pop/oldest/%s"
  | Newest => "/item/pop/newest/%s"
  end.

Definition popRaw `{Env} (k : Pop) : Client -> string -> M (option I * error) :=
  match k with
  | Oldest => PopOldestRaw
  | Newest => PopNewestRaw
  end.



(** The world once the request [r] has been built. *)
Definition afterBuilt `{Env} (r : Request) (w : World) : World :=
  {| trace := trace w ++ [Built r]; heap := heap w |}.

(** Test benches: a server that answers 404, and one that answers 500,
    neither taken as transient; the client of the tests. *)
Definition notFound : Response :=
  {| StatusCode := 404; Status := "404 Not Found"; ReadAll_Body := Ok [] |}.


Definition benchNotFound : Env := bench (fun _ _ => Ok notFound) (fun _ => false).

Definition benchWorld (answer : nat -> Request -> result Response)
    (transient : result Response -> bool) : @World (bench answer transient) :=
  @mkWorld (bench answer transient) [] (∅ : gmap loc bytes).

Definition testClient `{Env} : Client :=
  New "http://127.0.0.1:8080" "admin" "adm1n" None.

(* ===================================================================== *)
(** * The remaining operations of the client *)
(* ===================================================================== *)

(** [strings.Join(elems, sep)] *)
Fixpoint Join (elems : list string) (sep : string) : string :=
  match elems with
  | [] => EmptyString
  | [a] => a
  | a :: rest => a +:+ sep +:+ Join rest sep
  end.

(** [TT], the definition of an item type *)
Record TT := mkTT {
  TT_Key : string;
  Schema : bytes;
  Proto : bytes
}.

(** The codecs of the two remaining wire types: [json.Unmarshal(body, &items)]
    for an [IL], and [json.Marshal(typeInfo)] for a [*TT]. *)
Class Codecs := {
  json_Unmarshal_IL : bytes -> result IL;
  json_Marshal_TT : TT -> result bytes
}.

(** What [SetType] asks of the example object besides its encoding: the
    encoding of its reflected schema,
    [json.Marshal(jsonschema.Reflect(obj))]. *)
Class Described (A : Type) := {
  Schema_Marshal : A -> result bytes
}.

Section Operations.

Context `{Env, Codecs}.

(** [func (c *Client) SetType(key string, obj any) error] *)
Definition SetType {A} `{Described A, Item A} (c : Client) (key : string) (obj : A)
  : M error :=
  match Schema_Marshal obj with
  | Err err => mret (Some err)
  | Ok schemaBytes =>
  match Marshal obj with
  | Err err => mret (Some err)
  | Ok protoBytes =>
  let typeInfo := {| TT_Key := key; Schema := schemaBytes; Proto := protoBytes |} in
  match json_Marshal_TT typeInfo with
  | Err err => mret (Some err)
  | Ok infoBytes =>
  request ← NewRequest "PUT" (url c "/type" []) (Some infoBytes);
  match request with
  | Err err => mret (Some err)
  | Ok request =>
  let request := Header_Set "Authorization" (token c) request in
  let request := Header_Set "User-Agent" UserAgent request in
  resp ← Do c request;
  match resp with
  | Err reqErr => mret (Some reqErr)
  | Ok resp =>
  if 299 <? StatusCode resp then
    mret (Some (Sprintf "cannot set type, source server responded with: %s"
                  [Status resp]))
  else mret None
  end end end end end.

(** [func (c *Client) LoadRaw(itemKey string)], returning a [*I] and an
    error *)
Definition LoadRaw (c : Client) (itemKey : string) : M (option I * error) :=
  request ← NewRequest "GET" (url c "/item/%s" [itemKey]) None;
  match request with
  | Err err => mret (None, Some err)
  | Ok request =>
  let request := Header_Set "Authorization" (token c) request in
  let request := Header_Set "User-Agent" UserAgent request in
  resp ← Do c request;
  match resp with
  | Err reqErr => mret (None, Some reqErr)
  | Ok resp =>
  if 299 <? StatusCode resp then
    mret (None, Some (Sprintf "cannot get item, source server responded with: %s"
                        [Status resp]))
  else
  match ReadAll_Body resp with
  | Err readErr =>
      mret (None, Some (Sprintf "cannot read response body: %s" [readErr]))
  | Ok body =>
  match json_Unmarshal_I body with
  | Err err => mret (None, Some (Sprintf "cannot unmarshal response body: %s" [err]))
  | Ok item => mret (Some item, None)
  end end end end.

(** [func (c *Client) Load(itemKey string, prototype any) (any, error)].
    [LoadRaw] returns a nil item only next to an error, so the last call
    always has an item; on a nil item [i.Typed] would dereference nil. *)
Definition Load (c : Client) (itemKey : string) (prototype : any) : M (any * error) :=
  if negb (Kind_eqb (reflect_Kind prototype) Ptr) then
    mret (Nil, Some "prototype argument passed to Load() must be a pointer")
  else
  '(i, err) ← LoadRaw c itemKey;
  match err with
  | Some err => mret (Nil, Some err)
  | None =>
  match i with
  | Some i => Typed i prototype
  | None => mret (Nil, Some "invalid memory address or nil pointer dereference")
  end end.

(** [func (c *Client) LoadItemsByTagRaw(tags ...string) (IL, error)] *)
Definition LoadItemsByTagRaw (c : Client) (tags : list string) : M (IL * error) :=
  request ← NewRequest "GET" (url c "/item/tag/%s" [Join tags "|"]) None;
  match request with
  | Err err => mret ([], Some err)
  | Ok request =>
  let request := Header_Set "Authorization" (token c) request in
  let request := Header_Set "User-Agent" UserAgent request in
  resp ← Do c request;
  match resp with
  | Err reqErr => mret ([], Some reqErr)
  | Ok resp =>
  if 299 <? StatusCode resp then
    mret ([], Some (Sprintf "cannot get tagged items, source server responded with: %s"
                      [Status resp]))
  else
  match ReadAll_Body resp with
  | Err readErr =>
      mret ([], Some (Sprintf "cannot read response body: %s" [readErr]))
  | Ok body =>
  match json_Unmarshal_IL body with
  | Err err => mret ([], Some (Sprintf "cannot unmarshal response body: %s" [err]))
  | Ok items => mret (items, None)
  end end end end.

(** [func (c *Client) LoadItemsByTag(factory func() any, tags ...string) ([]any, error)] *)
Definition LoadItemsByTag (c : Client) (factory : Heap -> any * Heap)
    (tags : list string) : M (list any * error) :=
  '(items, err) ← LoadItemsByTagRaw c tags;
  match err with
  | Some err => mret ([], Some err)
  | None => IL_Typed items factory
  end.

(** [func (c *Client) LoadItemsByTypeRaw(itemType string) (IL, error)] *)
Definition LoadItemsByTypeRaw (c : Client) (itemType : string) : M (IL * error) :=
  request ← NewRequest "GET" (url c "/item/type/%s" [itemType]) None;
  match request with
  | Err err => mret ([], Some err)
  | Ok request =>
  let request := Header_Set "Authorization" (token c) request in
  let request := Header_Set "User-Agent" UserAgent request in
  resp ← Do c request;
  match resp with
  | Err reqErr => mret ([], Some reqErr)
  | Ok resp =>
  if 299 <? StatusCode resp then
    mret ([], Some (Sprintf
      "cannot get item for type '%s', source server responded with: %s"
      [itemType; Status resp]))
  else
  match ReadAll_Body resp with
  | Err readErr =>
      mret ([], Some (Sprintf "cannot read response body: %s" [readErr]))
  | Ok body =>
  match json_Unmarshal_IL body with
  | Err err => mret ([], Some (Sprintf "cannot unmarshal response body: %s" [err]))
  | Ok items => mret (items, None)
  end end end end.

(** [func (c *Client) LoadItemsByType(factory func() any, itemType string) ([]any, error)] *)
Definition LoadItemsByType (c : Client) (factory : Heap -> any * Heap)
    (itemType : string) : M (list any * error) :=
  '(items, err) ← LoadItemsByTypeRaw c itemType;
  match err with
  | Some err => mret ([], Some err)
  | None => IL_Typed items factory
  end.

(** [func (c *Client) LoadChildrenRaw(itemKey string) (IL, error)] *)
Definition LoadChildrenRaw (c : Client) (itemKey : string) : M (IL * error) :=
  request ← NewRequest "GET" (url c "/item/%s/children" [itemKey]) None;
  match request with
  | Err err => mret ([], Some err)
  | Ok request =>
  let request := Header_Set "Authorization" (token c) request in
  let request := Header_Set "User-Agent" UserAgent request in
  resp ← Do c request;
  match resp with
  | Err reqErr => mret ([], Some reqErr)
  | Ok resp =>
  if 299 <? StatusCode resp then
    mret ([], Some (Sprintf
      "cannot get children for item, source server responded with: %s"
      [Status resp]))
  else
  match ReadAll_Body resp with
  | Err readErr =>
      mret ([], Some (Sprintf "cannot read response body: %s" [readErr]))
  | Ok body =>
  match json_Unmarshal_IL body with
  | Err err => mret ([], Some (Sprintf "cannot unmarshal response body: %s" [err]))
  | Ok items => mret (items, None)
  end end end end.

(** [func (c *Client) LoadChildren(factory func() any, itemKey string) ([]any, error)] *)
Definition LoadChildren (c : Client) (factory : Heap -> any * Heap)
    (itemKey : string) : M (list any * error) :=
  '(items, err) ← LoadChildrenRaw c itemKey;
  match err with
  | Some err => mret ([], Some err)
  | None => IL_Typed items factory
  end.

(** [func (c *Client) LoadParentsRaw(itemKey string) (IL, error)] *)
Definition LoadParentsRaw (c : Client) (itemKey : string) : M (IL * error) :=
  request ← NewRequest "GET" (url c "/item/%s/parents" [itemKey]) None;
  match request with
  | Err err => mret ([], Some err)
  | Ok request =>
  let request := Header_Set "Authorization" (token c) request in
  let request := Header_Set "User-Agent" UserAgent request in
  resp ← Do c request;
  match resp with
  | Err reqErr => mret ([], Some reqErr)
  | Ok resp =>
  if 299 <? StatusCode resp then
    mret ([], Some (Sprintf
      "cannot get parents for item, source server responded with: %s"
      [Status resp]))
  else
  match ReadAll_Body resp with
  | Err readErr =>
      mret ([], Some (Sprintf "cannot read response body: %s" [readErr]))
  | Ok body =>
  match json_Unmarshal_IL body with
  | Err err => mret ([], Some (Sprintf "cannot unmarshal response body: %s" [err]))
  | Ok items => mret (items, None)
  end end end end.

(** [func (c *Client) LoadParents(factory func() any, itemKey string) ([]any, error)] *)
Definition LoadParents (c : Client) (factory : Heap -> any * Heap)
    (itemKey : string) : M (list any * error) :=
  '(items, err) ← LoadParentsRaw c itemKey;
  match err with
  | Some err => mret ([], Some err)
  | None => IL_Typed items factory
  end.

(** [func (c *Client) Link(fromKey, toKey string) error] *)
Definition Link (c : Client) (fromKey toKey : string) : M error :=
  request ← NewRequest "PUT" (url c "/link/%s/to/%s" [fromKey; toKey]) None;
  match request with
  | Err err => mret (Some err)
  | Ok request =>
  let request := Header_Set "Authorization" (token c) request in
  let request := Header_Set "User-Agent" UserAgent request in
  resp ← Do c request;
  match resp with
  | Err reqErr => mret (Some reqErr)
  | Ok resp =>
  if 299 <? StatusCode resp then
    mret (Some (Sprintf "cannot link items, source server responded with: %s"
                  [Status resp]))
  else mret None
  end end.

(** [func (c *Client) Unlink(fromKey, toKey string) error] *)
Definition Unlink (c : Client) (fromKey toKey : string) : M error :=
  request ← NewRequest "DELETE" (url c "/link/%s/to/%s" [fromKey; toKey]) None;
  match request with
  | Err err => mret (Some err)
  | Ok request =>
  let request := Header_Set "Authorization" (token c) request in
  let request := Header_Set "User-Agent" UserAgent request in
  resp ← Do c request;
  match resp with
  | Err reqErr => mret (Some reqErr)
  | Ok resp =>
  if 299 <? StatusCode resp then
    mret (Some (Sprintf "cannot unlink items, source server responded with: %s"
                  [Status resp]))
  else mret None
  end end.

(** [func (c *Client) Delete(key string) error] *)
Definition Delete (c : Client) (key : string) : M error :=
  request ← NewRequest "DELETE" (url c "/item/%s" [key]) None;
  match request with
  | Err err => mret (Some err)
  | Ok request =>
  let request := Header_Set "Authorization" (token c) request in
  let request := Header_Set "User-Agent" UserAgent request in
  resp ← Do c request;
  match resp with
  | Err reqErr => mret (Some reqErr)
  | Ok resp =>
  if 299 <? StatusCode resp then
    mret (Some (Sprintf "cannot delete item, source server responded with: %s"
                  [Status resp]))
  else mret None
  end end.

End Operations.

(* ===================================================================== *)
(** * Specifications of the exchange with the server *)
(* ===================================================================== *)

Section ExchangeSpec.

Context `{Env}.

(** A request as [NewRequest] returns it, and the same request with the
    two headers every operation sets, and the header [Save] adds. *)
Definition asBuilt (method u : string) (body : option bytes) : Request :=
  {| Method := method; URL := u; Header := ∅; Body := body |}.

Definition authenticated (c : Client) (r : Request) : Request :=
  Header_Set "User-Agent" UserAgent (Header_Set "Authorization" (token c) r).

Definition asSent (c : Client) (sourceType : option string) (r : Request) : Request :=
  match sourceType with
  | Some t => Header_Set "Source-Type" t (authenticated c r)
  | None => authenticated c r
  end.

(** The exchange of one operation: the request is built, or building it
    fails and nothing is sent; once built it gets its headers and goes
    through [Do]. *)
Definition exchange (c : Client) (method u : string) (body : option bytes)
    (sourceType : option string) : M (result Response) :=
  fun w =>
    match NewRequest_err method u with
    | Some e => (Err e, w)
    | None =>
        Do c (asSent c sourceType (asBuilt method u body))
           (afterBuilt (asBuilt method u body) w)
    end.

(** What an operation returns is a function of what its exchange gave. *)
Definition through {A} (k : result Response -> A) (m : M (result Response)) : M A :=
  fun w => let (out, w') := m w in (k out, w').

(** An operation without a result: the error of the exchange, or an error
    with the status text for a status above 299. *)
Definition statusError (what : string) (out : result Response) : error :=
  match out with
  | Err e => Some e
  | Ok resp =>
      if 299 <? StatusCode resp then Some (what +:+ Status resp) else None
  end.

(** An operation that reads one item: the status check, then the body is
    read and decoded. *)
Definition itemResult (out : result Response) : option I * error :=
  match out with
  | Err e => (None, Some e)
  | Ok resp =>
      if 299 <? StatusCode resp then
        (None, Some ("cannot get item, source server responded with: " +:+ Status resp))
      else
        match ReadAll_Body resp with
        | Err readErr => (None, Some ("cannot read response body: " +:+ readErr))
        | Ok body =>
            match json_Unmarshal_I body with
            | Err err => (None, Some ("cannot unmarshal response body: " +:+ err))
            | Ok item => (Some item, None)
            end
        end
  end.

(** A pop: as for one item, but a status 404 is the empty result. *)
Definition popResult (out : result Response) : option I * error :=
  match out with
  | Ok resp =>
      if StatusCode resp =? StatusNotFound then (None, None) else itemResult out
  | Err _ => itemResult out
  end.

(** [Save]: for a status above 299 the error carries the status text and,
    when the body could be read and is not empty, the body. *)
Definition saveResult (out : result Response) : error :=
  match out with
  | Err e => Some e
  | Ok resp =>
      if 299 <? StatusCode resp then
        Some ("cannot save item, source server responded with: " +:+ Status resp +:+
              ", " +:+
              match ReadAll_Body resp with
              | Ok body =>
                  if (0 <? length body)%nat then String.string_of_list_byte body
                  else EmptyString
              | Err _ => EmptyString
              end)
      else None
  end.

(** [w'] is [w], or [w] followed by one request built and between one and
    [RetryMax + 1] round trips, all with that request once its headers are
    set; the heap is the same. *)
Definition oneExchange (c : Client) (sourceType : option string) (w w' : World) : Prop :=
  w' = w \/
  exists r0 n,
    Header r0 = ∅ /\
    (1 <= n <= S (Z.to_nat (RetryMax (retryable c))))%nat /\
    w' = {| trace := trace w ++ Built r0 :: repeat (Sent (asSent c sourceType r0)) n;
            heap := heap w |}.

End ExchangeSpec.

(** An operation that reads a list of items. *)
Definition itemsResult `{Env, Codecs} (what : string) (out : result Response)
  : IL * error :=
  match out with
  | Err e => ([], Some e)
  | Ok resp =>
      if 299 <? StatusCode resp then ([], Some (what +:+ Status resp))
      else
        match ReadAll_Body resp with
        | Err readErr => ([], Some ("cannot read response body: " +:+ readErr))
        | Ok body =>
            match json_Unmarshal_IL body with
            | Err err => ([], Some ("cannot unmarshal response body: " +:+ err))
            | Ok items => (items, None)
            end
        end
  end.

(** The result of an operation without a value, against what its exchange
    gave: nil exactly for a response with a status of at most 299; the
    error of the exchange as it is; for a status above 299 the text [what]
    followed by the status text. *)
Definition statusOutcome (what : string) (res : error) (out : result Response) : Prop :=
  (res = None <-> exists resp, out = Ok resp /\ StatusCode resp <= 299) /\
  (forall e, out = Err e -> res = Some e) /\
  (forall resp, out = Ok resp -> 299 < StatusCode resp ->
     res = Some (what +:+ Status resp)).

(** The result of a list read against what its exchange gave: an error
    always comes with the nil list; the list is returned exactly for a
    response with a status of at most 299 whose body can be read and
    decoded, and is the decoded list. *)
Definition listOutcome `{Env, Codecs} (what : string) (res : IL * error)
    (out : result Response) : Prop :=
  (forall e, snd res = Some e -> fst res = []) /\
  (forall items, res = (items, None) <->
     exists resp body, out = Ok resp /\ StatusCode resp <= 299 /\
       ReadAll_Body resp = Ok body /\ json_Unmarshal_IL body = Ok items) /\
  (forall e, out = Err e -> res = ([], Some e)) /\
  (forall resp, out = Ok resp -> 299 < StatusCode resp ->
     res = ([], Some (what +:+ Status resp))).

(** The result of a typed list read against that of its raw read, from the
    world [w]: an error always comes with the nil sequence; an error of
    the raw read is returned as it is, with the heap still that of [w];
    after a raw read that succeeds the outcome is the conversion of its
    list; the trace is that of the raw read. *)
Definition typedListOutcome `{Env} (factory : Heap -> any * Heap) (w : World)
    (raw : (IL * error) * World) (typed : (list any * error) * World) : Prop :=
  (forall e, snd (fst typed) = Some e -> fst (fst typed) = []) /\
  (forall e, snd (fst raw) = Some e ->
     fst typed = ([], Some e) /\ heap (snd typed) = heap w) /\
  (snd (fst raw) = None -> typed = IL_Typed (fst (fst raw)) factory (snd raw)) /\
  trace (snd typed) = trace (snd raw).

(** Test bench, continued: codecs that take the body as the value of a
    single item and the two encodings side by side as the encoding of a
    type; a schema for [ClientOptions]; and an item that cannot be
    encoded, such as a struct holding a channel. *)
Definition benchCodecs : Codecs :=
  {| json_Unmarshal_IL := fun body =>
       match body with
       | [] => Err "unexpected end of JSON input"
       | _ => Ok [{| Key := "OPT_1"; Type_ := "AAA"; Value := body;
                     Updated := time.mkTime 2022 9 5 7 3 9 0 |}]
       end;
     json_Marshal_TT := fun t => Ok (Schema t ++ Proto t) |}.

#[export] Instance ClientOptions_Described : Described ClientOptions :=
  {| Schema_Marshal := fun _ => Ok (String.list_byte_of_string "{}") |}.

Inductive Unencodable := unencodable.

#[export] Instance Unencodable_Valid : Valid Unencodable :=
  {| Validate := fun _ => None |}.

#[export] Instance Unencodable_Item : Item Unencodable :=
  {| KindOf := fun _ => Struct;
     Marshal := fun _ => Err "json: unsupported type: chan int" |}.

#[export] Instance Unencodable_Described : Described Unencodable :=
  {| Schema_Marshal := fun _ => Ok (String.list_byte_of_string "{}") |}.

(** A server that answers 200 with a body of two bytes. *)
Definition okResponse : Response :=
  {| StatusCode := 200; Status := "200 OK";
     ReadAll_Body := Ok (String.list_byte_of_string "{}") |}.

Definition benchOK : Env := bench (fun _ _ => Ok okResponse) (fun _ => false).

(** Items for the bench decoder: one that decodes and one with an empty
    value, which it rejects; a factory that hands out the next free slot;
    and two wall clock times 955 microseconds apart within one millisecond,
    with a third one millisecond later. *)
Definition goodItem : I :=
  {| Key := "OPT_1"; Type_ := "AAA"; Value := String.list_byte_of_string "{}";
     Updated := time.mkTime 2022 9 5 7 3 9 0 |}.

Definition badItem : I :=
  {| Key := "OPT_2"; Type_ := "AAA"; Value := [];
     Updated := time.mkTime 2022 9 5 7 3 9 0 |}.

Definition nextSlot (h : gmap loc bytes) : any * gmap loc bytes := (PtrTo (size h), h).

Definition clock1 : time.Time := time.mkTime 2022 9 5 7 3 9 45000000.
Definition clock2 : time.Time := time.mkTime 2022 9 5 7 3 9 45955000.
Definition clock3 : time.Time := time.mkTime 2022 9 5 7 3 9 46000000.

(** The number a string of decimal digits stands for, most significant
    digit first: the inverse of the decimal formatting. *)
Fixpoint decimal_from (acc : Z) (s : string) : Z :=
  match s with
  | EmptyString => acc
  | String d s' => decimal_from (10 * acc + (Z.of_nat (nat_of_ascii d) - 48)) s'
  end.

Definition decimal (s : string) : Z := decimal_from 0 s.

(** Two wall clock times in the same millisecond. *)
Definition sameMillisecond (t1 t2 : time.Time) : Prop :=
  time.Year t1 = time.Year t2 /\ time.Month t1 = time.Month t2 /\
  time.Day t1 = time.Day t2 /\ time.Hour t1 = time.Hour t2 /\
  time.Minute t1 = time.Minute t2 /\ time.Sec t1 = time.Sec t2 /\
  time.Nano t1 / 1000000 = time.Nano t2 / 1000000.

(** Lexicographic combination of comparisons, and the order of two wall
    clock times down to the millisecond. *)
Definition lex (c1 c2 : comparison) : comparison :=
  match c1 with Eq => c2 | _ => c1 end.

Definition compareTime (t1 t2 : time.Time) : comparison :=
  lex (time.Year t1 ?= time.Year t2)
  (lex (time.Month t1 ?= time.Month t2)
  (lex (time.Day t1 ?= time.Day t2)
  (lex (time.Hour t1 ?= time.Hour t2)
  (lex (time.Minute t1 ?= time.Minute t2)
  (lex (time.Sec t1 ?= time.Sec t2)
       (time.Nano t1 / 1000000 ?= time.Nano t2 / 1000000)))))).

(** The last [w] decimal digits of a number. *)
Fixpoint fixedDigits (w : nat) (x : Z) : string :=
  match w with
  | O => EmptyString
  | S w' => fixedDigits w' (x / 10) +:+ String (time.digit (x mod 10)) EmptyString
  end.

(* ===================================================================== *)
(** * Facts about strings *)
(* ===================================================================== *)

Section StringFacts.

Lemma append_cons (a : ascii) (s t : string) : String a s +:+ t = String a (s +:+ t).
Proof. reflexivity. Qed.

Lemma append_empty_l (s : string) : EmptyString +:+ s = s.
Proof. reflexivity. Qed.

Lemma append_empty_r (s : string) : s +:+ EmptyString = s.
Proof.
  induction s as [|a s IH]; [reflexivity|]. now rewrite append_cons, IH.
Qed.

Lemma append_assoc (a b c : string) : (a +:+ b) +:+ c = a +:+ b +:+ c.
Proof.
  induction a as [|x a IH]; [reflexivity|]. now rewrite !append_cons, IH.
Qed.

Lemma length_append (a b : string) :
  String.length (a +:+ b) = (String.length a + String.length b)%nat.
Proof.
  induction a as [|x a IH]; [reflexivity|]. rewrite append_cons. simpl.
  now rewrite IH.
Qed.



Lemma Index_cons (a : ascii) (s sub : string) :
  strings.Index (String a s) sub =
  if strings.HasPrefix (String a s) sub then Some O
  else S <$> strings.Index s sub.
Proof. reflexivity. Qed.



(** For a one-byte [sub], [Contains] is membership of the byte. *)
Lemma Index_byte_None (c : ascii) (s : string) :
  strings.Index s (String c EmptyString) = None <-> occurrences c s = O.
Proof.
  induction s as [|a s IH]; [simpl; tauto|].
  rewrite Index_cons. simpl.
  destruct (Ascii.eqb a c); simpl.
  - split; discriminate.
  - destruct (strings.Index s _); simpl in *.
    + split; [discriminate | intros E; apply IH in E; discriminate].
    + tauto.
Qed.

Lemma Contains_byte_false (c : ascii) (s : string) :
  strings.Contains s (String c EmptyString) = false <-> occurrences c s = O.
Proof.
  unfold strings.Contains. rewrite <- Index_byte_None.
  destruct (strings.Index s _); split; congruence.
Qed.

Lemma occurrences_append (c : ascii) (a b : string) :
  occurrences c (a +:+ b) = (occurrences c a + occurrences c b)%nat.
Proof.
  induction a as [|x a IH]; [reflexivity|]. rewrite append_cons. simpl.
  rewrite IH. lia.
Qed.

(** [Index] splits the string at the first instance of the byte. *)
Lemma Index_byte_Some (c : ascii) (s : string) (j : nat) :
  strings.Index s (String c EmptyString) = Some j ->
  s = strings.take j s +:+ String c EmptyString +:+ strings.drop (j + 1) s /\
  occurrences c (strings.take j s) = O.
Proof.
  revert j. induction s as [|a s IH]; intros j; [discriminate|].
  rewrite Index_cons. simpl strings.HasPrefix.
  destruct (Ascii.eqb_spec a c) as [->|Hne].
  - intros [= <-]. simpl. auto.
  - destruct (strings.Index s _) as [k|] eqn:Hk; simpl; [|discriminate].
    intros [= <-]. destruct (IH k eq_refl) as [Hs Ho].
    change (strings.take (S k) (String a s)) with (String a (strings.take k s)).
    change (strings.drop (S k + 1) (String a s)) with (strings.drop (k + 1) s).
    rewrite append_cons, <- Hs. split; [reflexivity|]. simpl.
    destruct (Ascii.eqb_spec a c); [contradiction | exact Ho].
Qed.

Lemma occurrences_byte (c a : ascii) :
  occurrences c (String a EmptyString) = if Ascii.eqb a c then 1%nat else O.
Proof. simpl. destruct (Ascii.eqb a c); reflexivity. Qed.

(** The digits and the timestamp hold no wildcard marker. *)
Lemma digit_not_marker (d : Z) :
  (Z.to_nat d < 10)%nat -> Ascii.eqb (time.digit d) "?" = false.
Proof.
  unfold time.digit. generalize (Z.to_nat d) as k. intros k Hk.
  do 10 (destruct k as [|k]; [reflexivity|]). lia.
Qed.

Lemma utoa_no_marker (fuel : nat) (n : Z) : occurrences "?" (time.utoa fuel n) = O.
Proof.
  revert n. induction fuel as [|fuel IH]; intros n; simpl; [reflexivity|].
  destruct (Z.ltb_spec n 10).
  - rewrite occurrences_byte, digit_not_marker; [reflexivity | lia].
  - rewrite occurrences_append, IH, occurrences_byte.
    rewrite digit_not_marker; [reflexivity|].
    pose proof (Z.mod_pos_bound n 10). lia.
Qed.

Lemma zeros_no_marker (k : nat) : occurrences "?" (time.zeros k) = O.
Proof. induction k; simpl; auto. Qed.

Lemma appendInt_no_marker (x : Z) (width : nat) :
  occurrences "?" (time.appendInt x width) = O.
Proof.
  unfold time.appendInt. rewrite !occurrences_append, zeros_no_marker, utoa_no_marker.
  destruct (x <? 0); reflexivity.
Qed.

Lemma Format_no_marker (t : time.Time) :
  occurrences "?" (time.Format_20060102150405_000 t) = O.
Proof.
  unfold time.Format_20060102150405_000.
  rewrite !occurrences_append, !appendInt_no_marker. reflexivity.
Qed.

(** The layout has eighteen bytes for a wall clock time of the years 0
    to 9999. *)
Lemma utoa_length (fuel k : nat) (n : Z) :
  n < 10 ^ Z.of_nat k -> (1 <= k)%nat -> (String.length (time.utoa fuel n) <= k)%nat.
Proof.
  revert k n. induction fuel as [|fuel IH]; intros k n Hn Hk; simpl; [lia|].
  destruct (Z.ltb_spec n 10); simpl; [lia|].
  rewrite length_append. simpl.
  destruct k as [|[|k]]; [lia | simpl in Hn; lia |].
  assert (String.length (time.utoa fuel (n / 10)) <= S k)%nat; [|lia].
  apply IH; [|lia].
  apply Z.div_lt_upper_bound; [lia|].
  replace (Z.of_nat (S (S k))) with (Z.succ (Z.of_nat (S k))) in Hn by lia.
  rewrite Z.pow_succ_r in Hn by lia. exact Hn.
Qed.

Lemma zeros_length (k : nat) : String.length (time.zeros k) = k.
Proof. induction k; simpl; auto. Qed.

Lemma appendInt_length (x : Z) (width : nat) :
  0 <= x < 10 ^ Z.of_nat width -> (1 <= width)%nat ->
  String.length (time.appendInt x width) = width.
Proof.
  intros Hx Hw. unfold time.appendInt.
  destruct (Z.ltb_spec x 0); [lia|].
  rewrite Z.abs_eq by lia. rewrite append_empty_l, length_append, zeros_length.
  pose proof (utoa_length (S (Z.to_nat (Z.log2 x))) width x). lia.
Qed.

Lemma Format_length (t : time.Time) :
  time.wellFormed t -> String.length (time.Format_20060102150405_000 t) = 18%nat.
Proof.
  intros (Hy & Hmo & Hd & Hh & Hmi & Hs & Hn).
  unfold time.Format_20060102150405_000.
  assert (0 <= time.Nano t / 1000000 < 1000).
  { split; [apply Z.div_pos; lia | apply Z.div_lt_upper_bound; lia]. }
  rewrite !length_append, !appendInt_length; try reflexivity; try lia.
Qed.

End StringFacts.

(* ===================================================================== *)
(** * Facts about the executor and the trace *)
(* ===================================================================== *)

Section TraceFacts.

Context `{Env}.

Lemma dispatches_refl P budget w : dispatches P budget w w.
Proof.
  exists []. rewrite app_nil_r.
  split; [reflexivity | split; [apply List.Forall_nil | unfold countSent; simpl; lia]].
Qed.

Lemma dispatches_added P budget w w' :
  dispatches P budget w w' -> Forall (fun e => P (requestOf e)) (added w w').
Proof.
  intros (evs & Ht & HP & _). unfold added. rewrite Ht.
  now rewrite drop_app_length.
Qed.

Lemma countSent_repeat req k : countSent (repeat (Sent req) k) = k.
Proof.
  unfold countSent. induction k as [|k IH]; [reflexivity|].
  change (repeat (Sent req) (S k)) with (Sent req :: repeat (Sent req) k).
  rewrite filter_cons_True by reflexivity. cbn [length]. now rewrite IH.
Qed.

(** The retry loop makes between one and [retries + 1] round trips with
    the same request and leaves the heap alone. *)
Lemma attempts_spec (retries : nat) (req : Request) (w : World) :
  exists k, (1 <= k <= S retries)%nat /\
    snd (attempts retries req w) =
    {| trace := trace w ++ repeat (Sent req) k; heap := heap w |}.
Proof.
  revert w. induction retries as [|r IH]; intros w.
  - exists 1%nat. split; [lia|]. simpl. unfold mbind, M_bind, roundTrip.
    destruct (CheckRetry _); reflexivity.
  - simpl. unfold mbind, M_bind, roundTrip.
    destruct (CheckRetry _).
    + destruct (IH {| trace := trace w ++ [Sent req]; heap := heap w |})
        as (k & Hk & Hw).
      exists (S k). split; [lia|]. rewrite Hw. simpl.
      now rewrite <- app_assoc.
    + exists 1%nat. split; [lia | reflexivity].
Qed.

Lemma Do_spec (c : Client) (req : Request) (w : World) :
  exists k, (1 <= k <= S (Z.to_nat (RetryMax (retryable c))))%nat /\
    snd (Do c req w) =
    {| trace := trace w ++ repeat (Sent req) k; heap := heap w |}.
Proof. apply attempts_spec. Qed.

(** An operation that builds [r0], sets headers and sends the result. *)
Lemma build_then_Do P (c : Client) (r0 req : Request) (w : World) :
  P r0 -> P req ->
  dispatches P (S (Z.to_nat (RetryMax (retryable c)))) w
    (snd (Do c req {| trace := trace w ++ [Built r0]; heap := heap w |})).
Proof.
  intros H0 Hr.
  destruct (Do_spec c req {| trace := trace w ++ [Built r0]; heap := heap w |})
    as (k & Hk & ->).
  exists (Built r0 :: repeat (Sent req) k). simpl. split; [|split].
  - now rewrite <- app_assoc.
  - apply List.Forall_cons; [exact H0|]. apply List.Forall_forall.
    intros e He. apply repeat_spec in He. now subst e.
  - unfold countSent. rewrite filter_cons_False by (simpl; congruence).
    fold (countSent (repeat (Sent req) k)). rewrite countSent_repeat. lia.
Qed.

Lemma url_eq (c : Client) (format : string) (args : list string) :
  url c format args = host c +:+ Sprintf format args.
Proof. unfold url. simpl. now rewrite append_empty_r. Qed.

Lemma Typed_trace (i : I) (p : any) (w : World) :
  trace (snd (Typed i p w)) = trace w.
Proof.
  unfold Typed, Unmarshal, onHeap, mbind, M_bind, mret, M_ret.
  destruct (json_Unmarshal _ _ _). reflexivity.
Qed.

End TraceFacts.

Section OperationFacts.

Context `{Env}.

Ltac run := unfold mbind, M_bind, mret, M_ret, NewRequest, emit; simpl.

(** The tail shared by the operations: the request was built, its headers
    set, and it goes through [Do]. *)
Ltac through_Do P c r0 w :=
  match goal with
  | |- context [Do c ?req ?W] =>
      let HB := fresh "HB" in
      assert (HB : dispatches P (S (Z.to_nat (RetryMax (retryable c)))) w
                     (snd (Do c req W)))
        by (apply (build_then_Do P c r0 req w); simpl;
            repeat match goal with
                   | |- context [if ?b then _ else _] => destruct b
                   end; simpl; auto);
      destruct (Do c req W) as [[resp|reqErr] w2]; simpl in HB |- *
  end.

Ltac done_HB :=
  match goal with H : dispatches _ _ _ _ |- _ => exact H end.

Lemma Save_dispatches {A} `{Valid A, Item A} (c : Client) (key itemType : string)
    (item : A) (w : World) :
  dispatches (fun r => Method r = "PUT" /\
                       URL r = host c +:+ "/item/" +:+ resolveKey time_Now_UTC key /\
                       Marshal item = Ok (default [] (Body r)))
    (S (Z.to_nat (RetryMax (retryable c)))) w (snd (Save c key itemType item w)).
Proof.
  unfold Save.
  destruct (Validate item); [apply dispatches_refl|].
  destruct (Kind_eqb _ _); [apply dispatches_refl|].
  destruct (String.length itemType =? 0)%nat; [apply dispatches_refl|].
  destruct (Marshal item) as [objBytes|e]; [|apply dispatches_refl].
  rewrite url_eq. simpl Sprintf. rewrite append_empty_r.
  run. destruct (NewRequest_err _ _); [apply dispatches_refl|]. simpl.
  match goal with |- context [Built ?r] => set (r0 := r) end.
  through_Do (fun r => Method r = "PUT" /\
     URL r = host c +:+ "/item/" +:+ resolveKey time_Now_UTC key /\
     @Ok bytes objBytes = Ok (default [] (Body r))) c r0 w.
  - destruct (299 <? _); exact HB.
  - exact HB.
Qed.


Ltac pop_raw_dispatches P c w :=
  rewrite url_eq; simpl Sprintf; rewrite append_empty_r;
  run; destruct (NewRequest_err _ _); [apply dispatches_refl|]; simpl;
  match goal with
  | |- context [Built ?r] =>
      through_Do P c r w;
      [ destruct (_ =? StatusNotFound); [done_HB|];
        destruct (299 <? _); [done_HB|];
        destruct (ReadAll_Body _); [|done_HB];
        destruct (json_Unmarshal_I _); done_HB
      | done_HB ]
  end.

Lemma PopOldestRaw_dispatches (c : Client) (itemType : string) (w : World) :
  dispatches (fun r => Method r = "DELETE" /\
                       URL r = host c +:+ "/item/pop/oldest/" +:+ itemType)
    (S (Z.to_nat (RetryMax (retryable c)))) w (snd (PopOldestRaw c itemType w)).
Proof.
  unfold PopOldestRaw.
  pop_raw_dispatches (fun r => Method r = "DELETE" /\
    URL r = host c +:+ "/item/pop/oldest/" +:+ itemType) c w.
Qed.

Lemma PopNewestRaw_dispatches (c : Client) (itemType : string) (w : World) :
  dispatches (fun r => Method r = "DELETE" /\
                       URL r = host c +:+ "/item/pop/newest/" +:+ itemType)
    (S (Z.to_nat (RetryMax (retryable c)))) w (snd (PopNewestRaw c itemType w)).
Proof.
  unfold PopNewestRaw.
  pop_raw_dispatches (fun r => Method r = "DELETE" /\
    URL r = host c +:+ "/item/pop/newest/" +:+ itemType) c w.
Qed.

Lemma dispatches_same_trace P budget (w w1 w2 : World) :
  dispatches P budget w w1 -> trace w2 = trace w1 -> dispatches P budget w w2.
Proof. intros (evs & Ht & HP) E. exists evs. now rewrite E. Qed.

(** Both typed pops go through [PopOldestRaw]; the decoding that follows
    leaves the trace alone. *)
Ltac pop_typed_dispatches c itemType w :=
  destruct (negb _); [apply dispatches_refl|];
  run; pose proof (PopOldestRaw_dispatches c itemType w);
  destruct (PopOldestRaw c itemType w) as [[i err] w1]; simpl in *;
  destruct err; [done_HB|]; destruct i; [|done_HB];
  eapply dispatches_same_trace; [done_HB | apply Typed_trace].

Lemma PopOldest_dispatches (c : Client) (itemType : string) (p : any) (w : World) :
  dispatches (fun r => Method r = "DELETE" /\
                       URL r = host c +:+ "/item/pop/oldest/" +:+ itemType)
    (S (Z.to_nat (RetryMax (retryable c)))) w (snd (PopOldest c itemType p w)).
Proof. unfold PopOldest. pop_typed_dispatches c itemType w. Qed.

Lemma PopNewest_dispatches (c : Client) (itemType : string) (p : any) (w : World) :
  dispatches (fun r => Method r = "DELETE" /\
                       URL r = host c +:+ "/item/pop/oldest/" +:+ itemType)
    (S (Z.to_nat (RetryMax (retryable c)))) w (snd (PopNewest c itemType p w)).
Proof. unfold PopNewest. pop_typed_dispatches c itemType w. Qed.

Ltac tag_dispatches P c w :=
  run; destruct (NewRequest_err _ _); [apply dispatches_refl|]; simpl;
  match goal with
  | |- context [Built ?r] =>
      through_Do P c r w; [destruct (299 <? _); done_HB | done_HB]
  end.

Lemma Tag_dispatches (c : Client) (itemKey tagName tagValue : string) (w : World) :
  dispatches (fun r => Method r = "PUT")
    (S (Z.to_nat (RetryMax (retryable c)))) w (snd (Tag c itemKey tagName tagValue w)).
Proof.
  unfold Tag. destruct (0 <? String.length tagName)%nat; [|apply dispatches_refl].
  tag_dispatches (fun r => Method r = "PUT") c w.
Qed.

Lemma Untag_dispatches (c : Client) (itemKey tagName : string) (w : World) :
  dispatches (fun r => Method r = "DELETE")
    (S (Z.to_nat (RetryMax (retryable c)))) w (snd (Untag c itemKey tagName w)).
Proof.
  unfold Untag. destruct (String.length tagName =? 0)%nat; [apply dispatches_refl|].
  tag_dispatches (fun r => Method r = "DELETE") c w.
Qed.

Lemma Legacy_Save_dispatches {A} `{Item A} (c : Legacy.Client) (key itemType : string)
    (item : A) (w : World) :
  dispatches (fun r => Method r = "PUT" /\
     URL r = Legacy.host c +:+ "/item/" +:+ resolveKey time_Now_UTC key)
    1 w (snd (Legacy.Save c key itemType item w)).
Proof.
  unfold Legacy.Save.
  destruct (String.length itemType =? 0)%nat; [apply dispatches_refl|].
  destruct (Marshal item) as [objBytes|e]; [|apply dispatches_refl].
  unfold Legacy.url. simpl Sprintf. rewrite !append_empty_r.
  run. destruct (NewRequest_err _ _); [apply dispatches_refl|]. simpl.
  unfold Legacy.Do, roundTrip. simpl.
  match goal with
  | |- context [RoundTrip ?n ?req] =>
      assert (HB : dispatches (fun r => Method r = "PUT" /\
                URL r = Legacy.host c +:+ "/item/" +:+ resolveKey time_Now_UTC key)
              1 w {| trace := (trace w ++ [Built {| Method := "PUT";
                        URL := Legacy.host c +:+ "/item/" +:+ resolveKey time_Now_UTC key;
                        Header := ∅; Body := Some objBytes |}]) ++ [Sent req];
                     heap := heap w |});
      [|destruct (RoundTrip n req); [destruct (299 <? _)|]; done_HB]
  end.
  eexists [_; _]. rewrite <- app_assoc. split; [reflexivity|]. split.
  - repeat apply List.Forall_cons; try apply List.Forall_nil; simpl;
      destruct (0 <? String.length itemType)%nat; simpl; auto.
  - unfold countSent. rewrite filter_cons_False by (simpl; congruence).
    rewrite filter_cons_True by reflexivity. simpl. lia.
Qed.

End OperationFacts.

(* ===================================================================== *)
(** * The key sequencer *)
(* ===================================================================== *)

Lemma resolveKey_meets_spec (now : time.Time) (key : string) :
  resolveKey_spec (time.Format_20060102150405_000 now) key (resolveKey now key).
Proof.
  unfold resolveKey, strings.Contains.
  destruct (strings.Index key "?") as [j|] eqn:Hj.
  - simpl strings.Replace. rewrite Hj.
    change (String.length "?") with 1%nat.
    destruct (Index_byte_Some _ _ _ Hj) as [Hs Ho].
    remember (strings.take j key) as before.
    remember (strings.drop (j + 1) key) as after.
    rewrite Hs at 1. apply resolve_first.
    now apply Contains_byte_false.
  - apply resolve_unchanged. unfold strings.Contains. now rewrite Hj.
Qed.

Example resolveKey_item :
  resolveKey (time.mkTime 2022 9 5 7 3 9 45678901) "ITEM_?_?" =
  "ITEM_20220905070309.045_?".
Proof. vm_compute. reflexivity. Qed.

Example resolveKey_plain :
  resolveKey (time.mkTime 2022 9 5 7 3 9 45678901) "OPT_1" = "OPT_1".
Proof. vm_compute. reflexivity. Qed.

Example Sprintf_tag :
  Sprintf "/item/%s/tag/%s" ["OPT_1"; "status|dev"] = "/item/OPT_1/tag/status|dev".
Proof. vm_compute. reflexivity. Qed.

Section Properties.

Context `{Env}.

Lemma dispatches_weaken (P Q : Request -> Prop) budget (w w' : World) :
  (forall r, P r -> Q r) -> dispatches P budget w w' -> dispatches Q budget w w'.
Proof.
  intros HPQ (evs & Ht & HP & Hc). exists evs. split; [exact Ht|]. split; [|exact Hc].
  eapply List.Forall_impl; [|exact HP]. intros e. apply HPQ.
Qed.

Lemma dispatches_budget P budget (w w' : World) :
  dispatches P budget w w' -> (countSent (added w w') <= budget)%nat.
Proof.
  intros (evs & Ht & _ & Hc). unfold added. rewrite Ht.
  now rewrite drop_app_length.
Qed.



Ltac run := unfold mbind, M_bind, mret, M_ret, NewRequest, emit; simpl.

(** The loop of [IL.Typed], for any slice accumulated so far. *)
Lemma Typed_range_spec (factory : Heap -> any * Heap) (items : list I)
    (ii : list any) (w : World) :
  match Typed_range items factory ii w with
  | ((res, None), w') =>
      exists ts, res = ii ++ ts /\ AllConverted factory w items ts w'
  | ((res, Some e), w') => res = [] /\ FirstFailure factory w items e w'
  end.
Proof.
  revert ii w. induction items as [|item rest IH]; intros ii w.
  - simpl. exists []. rewrite app_nil_r. split; [reflexivity | constructor].
  - simpl. unfold mbind at 1, M_bind at 1.
    destruct (convert item factory w) as [[t err] w1] eqn:Hc.
    destruct err as [e|].
    + simpl. split; [reflexivity|]. eapply FirstFailure_here. exact Hc.
    + specialize (IH (ii ++ [t]) w1).
      destruct (Typed_range rest factory (ii ++ [t]) w1) as [[res [e|]] w2].
      * destruct IH as [-> Hf]. split; [reflexivity|].
        eapply FirstFailure_later; eassumption.
      * destruct IH as (ts & -> & Hall). exists (t :: ts).
        rewrite <- app_assoc. split; [reflexivity|].
        eapply AllConverted_cons; eassumption.
Qed.



(** C4. For every value whose [Validate()] returns a failure, [Save]
    returns that error unchanged and leaves the world as it was: no
    request is built and no round trip is made. *)
Theorem C4_Save_validation_first {A} `{Valid A, Item A} (c : Client)
    (key itemType : string) (item : A) (w : World) (e : string) :
  Validate item = Some e ->
  Save c key itemType item w = (Some e, w).
Proof. intros Hv. unfold Save. rewrite Hv. reflexivity. Qed.

(** C7. Usage errors are returned at once, with the world left as it was
    (no request built, no round trip, hence no retry): [Save] with an
    empty item type, [Save] with an item that is a pointer, and [Tag] and
    [Untag] with an empty tag name. *)
Theorem C7_usage_errors_without_request {A} `{Valid A, Item A} (c : Client)
    (key itemType itemKey tagValue : string) (item : A) (w : World) :
  (exists e, Save c key EmptyString item w = (Some e, w)) /\
  (KindOf item = Ptr -> exists e, Save c key itemType item w = (Some e, w)) /\
  Tag c itemKey EmptyString tagValue w = (Some "a tag name is required", w) /\
  Untag c itemKey EmptyString w = (Some "a tag name is required", w).
Proof.
  split; [|split; [|split; reflexivity]].
  - unfold Save. destruct (Validate item) as [e|]; [now exists e|].
    destruct (Kind_eqb _ _); eexists; reflexivity.
  - intros Hk. unfold Save. destruct (Validate item) as [e|]; [now exists e|].
    rewrite Hk. eexists; reflexivity.
Qed.

(** C8. Validation of the client options fails when the timeout is below
    thirty seconds and succeeds when it is at least thirty seconds; so a
    client constructed by [New] from options that passed validation has a
    timeout of at least thirty seconds, and so has the client constructed
    from the default options. *)
Theorem C8_options_timeout (o : ClientOptions) (h user pwd : string) :
  (Timeout o < 30 * time.Second ->
   ClientOptions_Validate o = Some "timeout must be greater than 30 secs") /\
  (30 * time.Second <= Timeout o -> ClientOptions_Validate o = None) /\
  (ClientOptions_Validate o = None ->
   30 * time.Second <= http_Timeout (HTTPClient (retryable (New h user pwd (Some o))))) /\
  30 * time.Second <= http_Timeout (HTTPClient (retryable (New h user pwd None))).
Proof.
  assert (Hdefault : 30 * time.Second <= 60 * time.Second) by (vm_compute; discriminate).
  unfold ClientOptions_Validate.
  destruct (Z.ltb_spec (Timeout o) (30 * time.Second)) as [Hlt|Hge];
    (split; [|split; [|split]]); intros; try reflexivity; try lia;
    try discriminate; simpl; assumption.
Qed.

(** C10. [i.Typed(p)] returns [p] itself in all cases, with the error of
    the decoder: also when decoding fails, the result is the prototype
    that was passed (not nil unless the caller passed nil), next to the
    error. *)
Theorem C10_Typed_returns_prototype (i : I) (p : any) (w : World) :
  fst (fst (Typed i p w)) = p /\
  snd (fst (Typed i p w)) = snd (json_Unmarshal (Value i) p (heap w)) /\
  isNil (fst (fst (Typed i p w))) = isNil p /\
  snd (Typed i p w) =
    {| trace := trace w; heap := fst (json_Unmarshal (Value i) p (heap w)) |}.
Proof.
  unfold Typed, Unmarshal, onHeap. run.
  destruct (json_Unmarshal (Value i) p (heap w)). simpl. auto.
Qed.


Lemma sent_afterBuilt (r : Request) (w : World) : sent (afterBuilt r w) = sent w.
Proof.
  unfold sent, afterBuilt. simpl. rewrite filter_app.
  rewrite filter_cons_False by (simpl; congruence).
  rewrite filter_nil. apply app_nil_r.
Qed.


(** C9. The client constructed by [New] has its retry maximum set to 20,
    whatever the options; so every call of its executor makes at least
    one and at most twenty-one round trips, that is at most twenty
    retries, and returns; and no operation makes more round trips than
    that. *)
Theorem C9_bounded_retry_budget (h user pwd : string) (opts : option ClientOptions) :
  let c := New h user pwd opts in
  RetryMax (retryable c) = 20 /\
  (forall req w, exists n, (1 <= n <= 21)%nat /\
     snd (Do c req w) = {| trace := trace w ++ repeat (Sent req) n; heap := heap w |}) /\
  (forall A (V : Valid A) (J : Item A) key itemType (item : A) w,
     (countSent (added w (snd (Save c key itemType item w))) <= 21)%nat) /\
  (forall k itemType w,
     (countSent (added w (snd (popRaw k c itemType w))) <= 21)%nat) /\
  (forall itemType p w,
     (countSent (added w (snd (PopOldest c itemType p w))) <= 21)%nat) /\
  (forall itemType p w,
     (countSent (added w (snd (PopNewest c itemType p w))) <= 21)%nat) /\
  (forall itemKey tagName tagValue w,
     (countSent (added w (snd (Tag c itemKey tagName tagValue w))) <= 21)%nat) /\
  (forall itemKey tagName w,
     (countSent (added w (snd (Untag c itemKey tagName w))) <= 21)%nat).
Proof.
  intros c.
  assert (Hmax : S (Z.to_nat (RetryMax (retryable c))) = 21%nat) by reflexivity.
  split; [reflexivity|]. split.
  { intros req w. destruct (Do_spec c req w) as (n & Hn & Hw).
    exists n. split; [lia | exact Hw]. }
  repeat split; intros; rewrite <- Hmax.
  - eapply dispatches_budget, Save_dispatches.
  - destruct k; eapply dispatches_budget;
      [apply PopOldestRaw_dispatches | apply PopNewestRaw_dispatches].
  - eapply dispatches_budget, PopOldest_dispatches.
  - eapply dispatches_budget, PopNewest_dispatches.
  - eapply dispatches_budget, Tag_dispatches.
  - eapply dispatches_budget, Untag_dispatches.
Qed.

(** The typed pops never reach the newest route: whatever [PopNewest]
    builds or sends goes to the oldest route, as for [PopOldest]. *)
Lemma PopNewest_route (c : Client) (itemType : string) (p : any) (w : World) :
  Forall (fun e => URL (requestOf e) = host c +:+ "/item/pop/oldest/" +:+ itemType)
         (added w (snd (PopNewest c itemType p w))).
Proof.
  apply (dispatches_added
           (fun r => URL r = host c +:+ "/item/pop/oldest/" +:+ itemType)
           (S (Z.to_nat (RetryMax (retryable c))))).
  eapply dispatches_weaken; [|apply PopNewest_dispatches].
  intros r [_ Hr]. exact Hr.
Qed.

End Properties.

(* ===================================================================== *)
(** * Evaluation at the test bench *)
(* ===================================================================== *)

(** C2. [PopNewest] and [PopOldest] are to dispatch to distinct routes.
    At the test bench, with item type AAA and a pointer prototype,
    [PopNewest] builds and sends its DELETE request to the oldest route,
    the route of [PopOldest], while [PopNewestRaw] goes to the newest
    route. *)
Theorem C2_PopNewest_dispatches_to_oldest :
  let w := benchWorld (fun _ _ => Ok notFound) (fun _ => false) in
  let c := testClient (H := benchNotFound) in
  let routes (w' : @World benchNotFound) :=
    map (fun e => (Method (requestOf e), URL (requestOf e))) (trace w') in
  routes (snd (PopNewest (H := benchNotFound) c "AAA" (PtrTo 0%nat) w)) =
    [("DELETE", "http://127.0.0.1:8080/item/pop/oldest/AAA");
     ("DELETE", "http://127.0.0.1:8080/item/pop/oldest/AAA")] /\
  routes (snd (PopOldest (H := benchNotFound) c "AAA" (PtrTo 0%nat) w)) =
    routes (snd (PopNewest (H := benchNotFound) c "AAA" (PtrTo 0%nat) w)) /\
  routes (snd (PopNewestRaw (H := benchNotFound) c "AAA" w)) =
    [("DELETE", "http://127.0.0.1:8080/item/pop/newest/AAA");
     ("DELETE", "http://127.0.0.1:8080/item/pop/newest/AAA")].
Proof. vm_compute. repeat split. Qed.

(** [Save] sends the encoding of the item as it is: the body of every
    request it builds or sends is what [json.Marshal] returned. *)
Lemma Save_body_is_encoding {A} `{Env, Valid A, Item A} (c : Client)
    (key itemType : string) (item : A) (w : World) :
  Forall (fun e => Marshal item = Ok (default [] (Body (requestOf e))))
         (added w (snd (Save c key itemType item w))).
Proof.
  apply (dispatches_added
           (fun r => Marshal item = Ok (default [] (Body r)))
           (S (Z.to_nat (RetryMax (retryable c))))).
  eapply dispatches_weaken; [|apply Save_dispatches].
  intros r (_ & _ & Hr). exact Hr.
Qed.

Example Format_example :
  time.Format_20060102150405_000 (time.mkTime 2022 9 5 7 3 9 45678901) =
  "20220905070309.045".
Proof. vm_compute. reflexivity. Qed.

Example Save_example :
  let w := benchWorld (fun _ _ => Ok notFound) (fun _ => false) in
  let c := testClient (H := benchNotFound) in
  map (fun e => URL (requestOf e))
      (trace (snd (Save c "ITEM_?" "AAA"
                     (mkClientOptions false (60 * time.Second)) w))) =
  ["http://127.0.0.1:8080/item/ITEM_20220905070309.045";
   "http://127.0.0.1:8080/item/ITEM_20220905070309.045"].
Proof. vm_compute. reflexivity. Qed.

Example ClientOptions_json_example :
  ClientOptions_json (mkClientOptions false (60 * time.Second)) =
  "{" +:+ quoted "InsecureSkipVerify" +:+ ":false," +:+
  quoted "Timeout" +:+ ":60000000000}".
Proof. vm_compute. reflexivity. Qed.

(** Item 3 of 5 fails to decode: an error and the nil sequence. *)
Example IL_Typed_third_of_five_fails :
  let w := benchWorld (fun _ _ => Ok notFound) (fun _ => false) in
  let item (v : bytes) := mkI "k" "AAA" v (time.mkTime 2022 9 5 7 3 9 0) in
  let good := item (String.list_byte_of_string "{}") in
  let bad := item [] in
  let factory (h : gmap loc bytes) := (PtrTo (size h), h) in
  fst (IL_Typed (H := benchNotFound) [good; good; bad; good; good] factory w) =
    ([], Some "unexpected end of JSON input") /\
  fst (IL_Typed (H := benchNotFound) [good; good; good] factory w) =
    ([PtrTo 0%nat; PtrTo 1%nat; PtrTo 2%nat], None).
Proof. vm_compute. split; reflexivity. Qed.

(** C4, at the bench: a [ClientOptions] with a timeout of 60 nanoseconds
    is rejected by its own [Validate] and nothing is sent. *)
Lemma C4_witness :
  Save (H := benchNotFound) (testClient (H := benchNotFound)) "OPT_1" "AAA" (mkClientOptions false 60)
       (benchWorld _ _) =
  (Some "timeout must be greater than 30 secs", benchWorld _ _).
Proof.
  apply (C4_Save_validation_first (H := benchNotFound)). reflexivity.
Defined.


(** C7, at the bench: an item passed by pointer. *)
Lemma C7_witness :
  exists e,
    Save (H := benchNotFound) (testClient (H := benchNotFound)) "OPT_1" "AAA"
         (mkRef (mkClientOptions false (60 * time.Second))) (benchWorld _ _) =
    (Some e, benchWorld _ _).
Proof.
  exact (proj1 (proj2 (C7_usage_errors_without_request (H := benchNotFound)
                         (testClient (H := benchNotFound)) "OPT_1" "AAA" "OPT_1" "dev"
                         (mkRef (mkClientOptions false (60 * time.Second)))
                         (benchWorld _ _)))
               eq_refl).
Defined.

(** C8, at ten and at sixty seconds. *)
Lemma C8_witness :
  ClientOptions_Validate (mkClientOptions false (10 * time.Second)) =
    Some "timeout must be greater than 30 secs" /\
  ClientOptions_Validate (mkClientOptions false (60 * time.Second)) = None /\
  30 * time.Second <=
    http_Timeout (HTTPClient (retryable
      (New (H := benchNotFound) "http://127.0.0.1:8080" "admin" "adm1n"
           (Some (mkClientOptions false (60 * time.Second)))))).
Proof.
  split; [|split].
  - exact (proj1 (C8_options_timeout (H := benchNotFound)
                    (mkClientOptions false (10 * time.Second))
                    "http://127.0.0.1:8080" "admin" "adm1n") eq_refl).
  - exact (proj1 (proj2 (C8_options_timeout (H := benchNotFound)
                    (mkClientOptions false (60 * time.Second))
                    "http://127.0.0.1:8080" "admin" "adm1n"))
                 ltac:(vm_compute; discriminate)).
  - exact (proj1 (proj2 (proj2 (C8_options_timeout (H := benchNotFound)
                    (mkClientOptions false (60 * time.Second))
                    "http://127.0.0.1:8080" "admin" "adm1n")))
                 eq_refl).
Defined.

(* ===================================================================== *)
(** * The operations as exchanges *)
(* ===================================================================== *)

Section ExchangeFacts.

Context `{Env, Codecs}.

Ltac run := unfold mbind, M_bind, mret, M_ret, NewRequest, emit; simpl.

Lemma exchange_oneExchange (c : Client) (method u : string) (body : option bytes)
    (st : option string) (w : World) :
  oneExchange c st w (snd (exchange c method u body st w)).
Proof.
  unfold exchange. destruct (NewRequest_err method u); [now left|].
  right. destruct (Do_spec c (asSent c st (asBuilt method u body))
                     (afterBuilt (asBuilt method u body) w)) as (n & Hn & Hw).
  exists (asBuilt method u body), n. split; [reflexivity|]. split; [exact Hn|].
  rewrite Hw. unfold afterBuilt. simpl. now rewrite <- app_assoc.
Qed.

Lemma through_world {A} (k : result Response -> A) (m : M (result Response)) (w : World) :
  snd (through k m w) = snd (m w).
Proof. unfold through. now destruct (m w). Qed.

Lemma through_result {A} (k : result Response -> A) (m : M (result Response)) (w : World) :
  fst (through k m w) = k (fst (m w)).
Proof. unfold through. now destruct (m w). Qed.

(** Unfolds an operation next to the exchange it makes and compares the
    two case by case. *)
Ltac as_exchange :=
  unfold through, exchange, asSent, authenticated, asBuilt, afterBuilt, statusError;
  run;
  match goal with
  | |- context [NewRequest_err ?m ?u] => destruct (NewRequest_err m u)
  end; simpl; [reflexivity|];
  match goal with
  | |- context [Do ?c ?r ?w] => destruct (Do c r w) as [[resp|e] w']
  end; simpl; [|reflexivity].

Lemma Tag_exchange (c : Client) (itemKey tagName tagValue : string) (w : World) :
  (0 <? String.length tagName)%nat = true ->
  Tag c itemKey tagName tagValue w =
  through (statusError "cannot tag item, source server responded with: ")
    (exchange c "PUT"
       (url c "/item/%s/tag/%s"
          [itemKey; if (0 <? String.length tagValue)%nat
                    then Sprintf "%s|%s" [tagName; tagValue] else tagName])
       None None) w.
Proof.
  intros Hn. unfold Tag. rewrite Hn. as_exchange.
  destruct (299 <? StatusCode resp); [rewrite append_empty_r|]; reflexivity.
Qed.

Lemma Untag_exchange (c : Client) (itemKey tagName : string) (w : World) :
  (String.length tagName =? 0)%nat = false ->
  Untag c itemKey tagName w =
  through (statusError "cannot tag item, source server responded with: ")
    (exchange c "DELETE" (url c "/item/%s/tag/%s" [itemKey; tagName]) None None) w.
Proof.
  intros Hn. unfold Untag. rewrite Hn. as_exchange.
  destruct (299 <? StatusCode resp); [rewrite append_empty_r|]; reflexivity.
Qed.

Lemma Link_exchange (c : Client) (fromKey toKey : string) (w : World) :
  Link c fromKey toKey w =
  through (statusError "cannot link items, source server responded with: ")
    (exchange c "PUT" (url c "/link/%s/to/%s" [fromKey; toKey]) None None) w.
Proof.
  unfold Link. as_exchange.
  destruct (299 <? StatusCode resp); [rewrite append_empty_r|]; reflexivity.
Qed.

Lemma Unlink_exchange (c : Client) (fromKey toKey : string) (w : World) :
  Unlink c fromKey toKey w =
  through (statusError "cannot unlink items, source server responded with: ")
    (exchange c "DELETE" (url c "/link/%s/to/%s" [fromKey; toKey]) None None) w.
Proof.
  unfold Unlink. as_exchange.
  destruct (299 <? StatusCode resp); [rewrite append_empty_r|]; reflexivity.
Qed.

Lemma Delete_exchange (c : Client) (key : string) (w : World) :
  Delete c key w =
  through (statusError "cannot delete item, source server responded with: ")
    (exchange c "DELETE" (url c "/item/%s" [key]) None None) w.
Proof.
  unfold Delete. as_exchange.
  destruct (299 <? StatusCode resp); [rewrite append_empty_r|]; reflexivity.
Qed.


Ltac read_cases :=
  repeat match goal with
         | |- context [if ?b then _ else _] => destruct b
         | |- context [match ReadAll_Body ?r with _ => _ end] => destruct (ReadAll_Body r)
         | |- context [match json_Unmarshal_I ?b with _ => _ end] =>
             destruct (json_Unmarshal_I b)
         | |- context [match json_Unmarshal_IL ?b with _ => _ end] =>
             destruct (json_Unmarshal_IL b)
         end;
  rewrite ?append_empty_r; try reflexivity.

Lemma LoadRaw_exchange (c : Client) (itemKey : string) (w : World) :
  LoadRaw c itemKey w =
  through itemResult (exchange c "GET" (url c "/item/%s" [itemKey]) None None) w.
Proof. unfold LoadRaw, itemResult. as_exchange. read_cases. Qed.

Lemma PopOldestRaw_exchange (c : Client) (itemType : string) (w : World) :
  PopOldestRaw c itemType w =
  through popResult
    (exchange c "DELETE" (url c "/item/pop/oldest/%s" [itemType]) None None) w.
Proof. unfold PopOldestRaw, popResult, itemResult. as_exchange. read_cases. Qed.

Lemma PopNewestRaw_exchange (c : Client) (itemType : string) (w : World) :
  PopNewestRaw c itemType w =
  through popResult
    (exchange c "DELETE" (url c "/item/pop/newest/%s" [itemType]) None None) w.
Proof. unfold PopNewestRaw, popResult, itemResult. as_exchange. read_cases. Qed.

Lemma LoadItemsByTagRaw_exchange (c : Client) (tags : list string) (w : World) :
  LoadItemsByTagRaw c tags w =
  through (itemsResult "cannot get tagged items, source server responded with: ")
    (exchange c "GET" (url c "/item/tag/%s" [Join tags "|"]) None None) w.
Proof. unfold LoadItemsByTagRaw, itemsResult. as_exchange. read_cases. Qed.

Lemma LoadItemsByTypeRaw_exchange (c : Client) (itemType : string) (w : World) :
  LoadItemsByTypeRaw c itemType w =
  through (itemsResult ("cannot get item for type '" +:+ itemType +:+
                        "', source server responded with: "))
    (exchange c "GET" (url c "/item/type/%s" [itemType]) None None) w.
Proof.
  unfold LoadItemsByTypeRaw, itemsResult. as_exchange. read_cases.
  now rewrite !append_assoc.
Qed.

Lemma LoadChildrenRaw_exchange (c : Client) (itemKey : string) (w : World) :
  LoadChildrenRaw c itemKey w =
  through (itemsResult "cannot get children for item, source server responded with: ")
    (exchange c "GET" (url c "/item/%s/children" [itemKey]) None None) w.
Proof. unfold LoadChildrenRaw, itemsResult. as_exchange. read_cases. Qed.

Lemma LoadParentsRaw_exchange (c : Client) (itemKey : string) (w : World) :
  LoadParentsRaw c itemKey w =
  through (itemsResult "cannot get parents for item, source server responded with: ")
    (exchange c "GET" (url c "/item/%s/parents" [itemKey]) None None) w.
Proof. unfold LoadParentsRaw, itemsResult. as_exchange. read_cases. Qed.

Lemma SetType_exchange {A} `{Described A, Item A} (c : Client) (key : string)
    (obj : A) (w : World) (schemaBytes protoBytes infoBytes : bytes) :
  Schema_Marshal obj = Ok schemaBytes ->
  Marshal obj = Ok protoBytes ->
  json_Marshal_TT {| TT_Key := key; Schema := schemaBytes; Proto := protoBytes |} =
    Ok infoBytes ->
  SetType c key obj w =
  through (statusError "cannot set type, source server responded with: ")
    (exchange c "PUT" (url c "/type" []) (Some infoBytes) None) w.
Proof.
  intros Hs Hp Hi. unfold SetType. rewrite Hs, Hp, Hi. as_exchange. read_cases.
Qed.

Lemma Save_exchange {A} `{Valid A, Item A} (c : Client) (key itemType : string)
    (item : A) (w : World) (objBytes : bytes) :
  Validate item = None ->
  Kind_eqb (KindOf item) Ptr = false ->
  (String.length itemType =? 0)%nat = false ->
  Marshal item = Ok objBytes ->
  Save c key itemType item w =
  through saveResult
    (exchange c "PUT" (url c "/item/%s" [resolveKey time_Now_UTC key])
       (Some objBytes) (Some itemType)) w.
Proof.
  intros Hv Hk Ht Hm. unfold Save. rewrite Hv, Hk, Ht, Hm.
  assert (Hpos : (0 <? String.length itemType)%nat = true).
  { destruct (String.length itemType); [discriminate | reflexivity]. }
  rewrite Hpos. unfold saveResult. as_exchange. read_cases.
Qed.

End ExchangeFacts.

Section ExchangeProperties.

Context `{Env, Codecs}.

Lemma asSent_shape (c : Client) (st : option string) (r : Request) :
  Method (asSent c st r) = Method r /\ URL (asSent c st r) = URL r /\
  Body (asSent c st r) = Body r.
Proof. destruct st; simpl; auto. Qed.

Lemma asSent_headers (c : Client) (st : option string) (r : Request) :
  Header r = ∅ ->
  Header (asSent c st r) !! "Authorization" = Some (token c) /\
  Header (asSent c st r) !! "User-Agent" = Some UserAgent /\
  Header (asSent c st r) !! "Source-Type" = st.
Proof.
  intros Hr. destruct st as [t|]; simpl; rewrite Hr;
    repeat split; now simplify_map_eq.
Qed.

Lemma oneExchange_added (c : Client) (st : option string) (w w' : World) :
  oneExchange c st w w' ->
  heap w' = heap w /\
  (added w w' = [] \/
   exists r0 n, Header r0 = ∅ /\
     (1 <= n <= S (Z.to_nat (RetryMax (retryable c))))%nat /\
     added w w' = Built r0 :: repeat (Sent (asSent c st r0)) n).
Proof.
  intros [->|(r0 & n & Hr & Hn & ->)]; (split; [reflexivity|]).
  - left. unfold added. apply drop_all.
  - right. exists r0, n. split; [exact Hr|]. split; [exact Hn|].
    unfold added. simpl. now rewrite drop_app_length.
Qed.

(** Every request of an exchange, as built and as sent, has the method,
    the URL and the body the operation gave. *)
Lemma exchange_requests (c : Client) (method u : string) (body : option bytes)
    (st : option string) (w : World) :
  Forall (fun e => Method (requestOf e) = method /\ URL (requestOf e) = u /\
                   Body (requestOf e) = body)
         (added w (snd (exchange c method u body st w))).
Proof.
  unfold exchange. destruct (NewRequest_err method u).
  - unfold added. simpl. rewrite drop_all. constructor.
  - destruct (Do_spec c (asSent c st (asBuilt method u body))
                (afterBuilt (asBuilt method u body) w)) as (n & _ & ->).
    unfold added, afterBuilt. simpl. rewrite <- app_assoc, drop_app_length.
    apply List.Forall_cons; [simpl; auto|].
    apply List.Forall_forall. intros e He. apply repeat_spec in He. subst e.
    simpl. apply asSent_shape.
Qed.


Lemma exchange_route (c : Client) (method u u' : string) (body : option bytes)
    (st : option string) (w : World) :
  u = u' ->
  Forall (fun e => Method (requestOf e) = method /\ URL (requestOf e) = u' /\
                   Body (requestOf e) = body)
         (added w (snd (exchange c method u body st w))).
Proof. intros <-. apply exchange_requests. Qed.

Ltac route := rewrite url_eq; simpl Sprintf; rewrite ?append_empty_r; reflexivity.

Lemma added_refl (w : World) : added w w = [].
Proof. unfold added. apply drop_all. Qed.

(** X1. Every operation that takes no typed argument makes at most one
    exchange: it leaves the world as it was, or it builds one request and
    makes between one and [RetryMax + 1] round trips, each with that same
    request carrying the headers Authorization and User-Agent and no
    other; the heap is never touched. *)
Theorem X1_one_exchange_per_operation (c : Client) (w : World) :
  (forall itemKey tagName tagValue,
     oneExchange c None w (snd (Tag c itemKey tagName tagValue w))) /\
  (forall itemKey tagName, oneExchange c None w (snd (Untag c itemKey tagName w))) /\
  (forall fromKey toKey, oneExchange c None w (snd (Link c fromKey toKey w))) /\
  (forall fromKey toKey, oneExchange c None w (snd (Unlink c fromKey toKey w))) /\
  (forall key, oneExchange c None w (snd (Delete c key w))) /\
  (forall itemKey, oneExchange c None w (snd (LoadRaw c itemKey w))) /\
  (forall itemType, oneExchange c None w (snd (PopOldestRaw c itemType w))) /\
  (forall itemType, oneExchange c None w (snd (PopNewestRaw c itemType w))) /\
  (forall tags, oneExchange c None w (snd (LoadItemsByTagRaw c tags w))) /\
  (forall itemType, oneExchange c None w (snd (LoadItemsByTypeRaw c itemType w))) /\
  (forall itemKey, oneExchange c None w (snd (LoadChildrenRaw c itemKey w))) /\
  (forall itemKey, oneExchange c None w (snd (LoadParentsRaw c itemKey w))).
Proof.
  repeat split; intros.
  - destruct (0 <? String.length tagName)%nat eqn:Hn;
      [|unfold Tag; rewrite Hn; now left].
    rewrite Tag_exchange, through_world by exact Hn. apply exchange_oneExchange.
  - destruct (String.length tagName =? 0)%nat eqn:Hn;
      [unfold Untag; rewrite Hn; now left|].
    rewrite Untag_exchange, through_world by exact Hn. apply exchange_oneExchange.
  - rewrite Link_exchange, through_world. apply exchange_oneExchange.
  - rewrite Unlink_exchange, through_world. apply exchange_oneExchange.
  - rewrite Delete_exchange, through_world. apply exchange_oneExchange.
  - rewrite LoadRaw_exchange, through_world. apply exchange_oneExchange.
  - rewrite PopOldestRaw_exchange, through_world. apply exchange_oneExchange.
  - rewrite PopNewestRaw_exchange, through_world. apply exchange_oneExchange.
  - rewrite LoadItemsByTagRaw_exchange, through_world. apply exchange_oneExchange.
  - rewrite LoadItemsByTypeRaw_exchange, through_world. apply exchange_oneExchange.
  - rewrite LoadChildrenRaw_exchange, through_world. apply exchange_oneExchange.
  - rewrite LoadParentsRaw_exchange, through_world. apply exchange_oneExchange.
Qed.

Lemma Save_oneExchange {A} `{Valid A, Item A} (c : Client) (key itemType : string)
    (item : A) (w : World) :
  oneExchange c (Some itemType) w (snd (Save c key itemType item w)).
Proof.
  destruct (Validate item) as [e|] eqn:Hv; [unfold Save; rewrite Hv; now left|].
  destruct (Kind_eqb (KindOf item) Ptr) eqn:Hk; [unfold Save; rewrite Hv, Hk; now left|].
  destruct (String.length itemType =? 0)%nat eqn:Ht;
    [unfold Save; rewrite Hv, Hk, Ht; now left|].
  destruct (Marshal item) as [b|e] eqn:Hm;
    [|unfold Save; rewrite Hv, Hk, Ht, Hm; now left].
  rewrite (Save_exchange c key itemType item w b Hv Hk Ht Hm), through_world.
  apply exchange_oneExchange.
Qed.

(** X2. Every round trip of [Save] carries the three headers: the token of
    the client as Authorization, the user agent, and the item type as
    Source-Type; and [Save] never touches the heap. *)
Theorem X2_Save_headers {A} `{Valid A, Item A} (c : Client) (key itemType : string)
    (item : A) (w : World) :
  heap (snd (Save c key itemType item w)) = heap w /\
  Forall (fun e => isSent e = true ->
            Header (requestOf e) !! "Authorization" = Some (token c) /\
            Header (requestOf e) !! "User-Agent" = Some UserAgent /\
            Header (requestOf e) !! "Source-Type" = Some itemType)
         (added w (snd (Save c key itemType item w))).
Proof.
  destruct (oneExchange_added _ _ _ _ (Save_oneExchange c key itemType item w))
    as [Hh [->|(r0 & n & Hr & _ & ->)]]; (split; [exact Hh|]).
  - constructor.
  - apply List.Forall_cons; [discriminate|].
    apply List.Forall_forall. intros e He. apply repeat_spec in He. subst e.
    intros _. exact (asSent_headers c (Some itemType) r0 Hr).
Qed.

(** X3. The routes of the operations that write: [Tag] puts to the tag
    route of the item, the tag being the name alone when the value is
    empty and name, bar, value otherwise; [Untag] deletes on the tag route
    with the name; [Link] puts and [Unlink] deletes on one and the same
    link route; [Delete] deletes on the item route. None sends a body. *)
Theorem X3_write_routes (c : Client) (w : World) :
  (forall itemKey tagName tagValue,
     Forall (fun e => Method (requestOf e) = "PUT" /\
               URL (requestOf e) =
                 host c +:+ "/item/" +:+ itemKey +:+ "/tag/" +:+
                 (if (0 <? String.length tagValue)%nat
                  then tagName +:+ "|" +:+ tagValue else tagName) /\
               Body (requestOf e) = None)
            (added w (snd (Tag c itemKey tagName tagValue w)))) /\
  (forall itemKey tagName,
     Forall (fun e => Method (requestOf e) = "DELETE" /\
               URL (requestOf e) = host c +:+ "/item/" +:+ itemKey +:+ "/tag/" +:+ tagName /\
               Body (requestOf e) = None)
            (added w (snd (Untag c itemKey tagName w)))) /\
  (forall fromKey toKey,
     Forall (fun e => Method (requestOf e) = "PUT" /\
               URL (requestOf e) = host c +:+ "/link/" +:+ fromKey +:+ "/to/" +:+ toKey /\
               Body (requestOf e) = None)
            (added w (snd (Link c fromKey toKey w)))) /\
  (forall fromKey toKey,
     Forall (fun e => Method (requestOf e) = "DELETE" /\
               URL (requestOf e) = host c +:+ "/link/" +:+ fromKey +:+ "/to/" +:+ toKey /\
               Body (requestOf e) = None)
            (added w (snd (Unlink c fromKey toKey w)))) /\
  (forall key,
     Forall (fun e => Method (requestOf e) = "DELETE" /\
               URL (requestOf e) = host c +:+ "/item/" +:+ key /\
               Body (requestOf e) = None)
            (added w (snd (Delete c key w)))).
Proof.
  repeat split; intros.
  - destruct (0 <? String.length tagName)%nat eqn:Hn;
      [|unfold Tag; rewrite Hn; simpl; rewrite added_refl; constructor].
    rewrite Tag_exchange, through_world by exact Hn. apply exchange_route.
    destruct (0 <? String.length tagValue)%nat; route.
  - destruct (String.length tagName =? 0)%nat eqn:Hn;
      [unfold Untag; rewrite Hn; simpl; rewrite added_refl; constructor|].
    rewrite Untag_exchange, through_world by exact Hn. apply exchange_route. route.
  - rewrite Link_exchange, through_world. apply exchange_route. route.
  - rewrite Unlink_exchange, through_world. apply exchange_route. route.
  - rewrite Delete_exchange, through_world. apply exchange_route. route.
Qed.

(** X4. The routes of the operations that read: each is a GET without a
    body; [LoadRaw] on the item route, the list reads on the tag route
    with the tags joined by bars, on the type route, and on the children
    and parents routes of the item; the pops are DELETE requests. *)
Theorem X4_read_routes (c : Client) (w : World) :
  (forall itemKey,
     Forall (fun e => Method (requestOf e) = "GET" /\
               URL (requestOf e) = host c +:+ "/item/" +:+ itemKey /\
               Body (requestOf e) = None)
            (added w (snd (LoadRaw c itemKey w)))) /\
  (forall tags,
     Forall (fun e => Method (requestOf e) = "GET" /\
               URL (requestOf e) = host c +:+ "/item/tag/" +:+ Join tags "|" /\
               Body (requestOf e) = None)
            (added w (snd (LoadItemsByTagRaw c tags w)))) /\
  (forall itemType,
     Forall (fun e => Method (requestOf e) = "GET" /\
               URL (requestOf e) = host c +:+ "/item/type/" +:+ itemType /\
               Body (requestOf e) = None)
            (added w (snd (LoadItemsByTypeRaw c itemType w)))) /\
  (forall itemKey,
     Forall (fun e => Method (requestOf e) = "GET" /\
               URL (requestOf e) = host c +:+ "/item/" +:+ itemKey +:+ "/children" /\
               Body (requestOf e) = None)
            (added w (snd (LoadChildrenRaw c itemKey w)))) /\
  (forall itemKey,
     Forall (fun e => Method (requestOf e) = "GET" /\
               URL (requestOf e) = host c +:+ "/item/" +:+ itemKey +:+ "/parents" /\
               Body (requestOf e) = None)
            (added w (snd (LoadParentsRaw c itemKey w)))) /\
  (forall k itemType,
     Forall (fun e => Method (requestOf e) = "DELETE" /\
               Body (requestOf e) = None)
            (added w (snd (popRaw k c itemType w)))).
Proof.
  repeat split; intros.
  - rewrite LoadRaw_exchange, through_world. apply exchange_route. route.
  - rewrite LoadItemsByTagRaw_exchange, through_world. apply exchange_route. route.
  - rewrite LoadItemsByTypeRaw_exchange, through_world. apply exchange_route. route.
  - rewrite LoadChildrenRaw_exchange, through_world. apply exchange_route. route.
  - rewrite LoadParentsRaw_exchange, through_world. apply exchange_route. route.
  - destruct k; simpl popRaw;
      [rewrite PopOldestRaw_exchange | rewrite PopNewestRaw_exchange];
      rewrite through_world;
      (eapply List.Forall_impl; [|apply exchange_requests]);
      intros e (Hm & _ & Hb); auto.
Qed.

End ExchangeProperties.

Section ResultProperties.

Context `{Env, Codecs}.

Lemma statusError_outcome (what : string) (out : result Response) :
  statusOutcome what (statusError what out) out.
Proof.
  unfold statusOutcome, statusError. destruct out as [resp|e].
  - destruct (Z.ltb_spec 299 (StatusCode resp)).
    + split; [|split].
      * split; [discriminate|]. intros (r & [= <-] & Hr). lia.
      * discriminate.
      * intros r [= <-] _. reflexivity.
    + split; [|split].
      * split; [|reflexivity]. intros _. exists resp. split; [reflexivity | lia].
      * discriminate.
      * intros r [= <-] Hr. lia.
  - split; [|split].
    + split; [discriminate|]. intros (r & Hr & _). discriminate.
    + intros e' [= <-]. reflexivity.
    + discriminate.
Qed.

(** X5. The operations that write return nil exactly when the exchange
    gave a response with a status of at most 299; an error of the exchange
    is returned as it is; a status above 299 gives an error that ends with
    the status text. [Untag] reports with the text of [Tag]. *)
Theorem X5_write_results (c : Client) (w : World) :
  (forall itemKey a name tagValue,
     statusOutcome "cannot tag item, source server responded with: "
       (fst (Tag c itemKey (String a name) tagValue w))
       (fst (exchange c "PUT"
               (url c "/item/%s/tag/%s"
                  [itemKey; if (0 <? String.length tagValue)%nat
                            then Sprintf "%s|%s" [String a name; tagValue]
                            else String a name])
               None None w))) /\
  (forall itemKey a name,
     statusOutcome "cannot tag item, source server responded with: "
       (fst (Untag c itemKey (String a name) w))
       (fst (exchange c "DELETE" (url c "/item/%s/tag/%s" [itemKey; String a name])
               None None w))) /\
  (forall fromKey toKey,
     statusOutcome "cannot link items, source server responded with: "
       (fst (Link c fromKey toKey w))
       (fst (exchange c "PUT" (url c "/link/%s/to/%s" [fromKey; toKey]) None None w))) /\
  (forall fromKey toKey,
     statusOutcome "cannot unlink items, source server responded with: "
       (fst (Unlink c fromKey toKey w))
       (fst (exchange c "DELETE" (url c "/link/%s/to/%s" [fromKey; toKey]) None None w))) /\
  (forall key,
     statusOutcome "cannot delete item, source server responded with: "
       (fst (Delete c key w))
       (fst (exchange c "DELETE" (url c "/item/%s" [key]) None None w))).
Proof.
  repeat apply conj; intros.
  - rewrite Tag_exchange, through_result by reflexivity. apply statusError_outcome.
  - rewrite Untag_exchange, through_result by reflexivity. apply statusError_outcome.
  - rewrite Link_exchange, through_result. apply statusError_outcome.
  - rewrite Unlink_exchange, through_result. apply statusError_outcome.
  - rewrite Delete_exchange, through_result. apply statusError_outcome.
Qed.

Lemma itemResult_cases (out : result Response) :
  (forall item, itemResult out = (Some item, None) <->
     exists resp body, out = Ok resp /\ StatusCode resp <= 299 /\
       ReadAll_Body resp = Ok body /\ json_Unmarshal_I body = Ok item) /\
  (fst (itemResult out) = None <-> snd (itemResult out) <> None).
Proof.
  unfold itemResult. destruct out as [resp|e].
  - destruct (Z.ltb_spec 299 (StatusCode resp)).
    + split; [|simpl; split; [discriminate | reflexivity]].
      intros item. split; [discriminate|].
      intros (r & b & [= <-] & Hr & _). lia.
    + destruct (ReadAll_Body resp) as [body|re] eqn:Hb.
      * destruct (json_Unmarshal_I body) as [it|de] eqn:Hd.
        -- split.
           ++ intros item. split.
              ** intros [= <-]. exists resp, body. repeat split; auto; lia.
              ** intros (r & b & [= <-] & _ & Hb' & Hd').
                 rewrite Hb in Hb'. injection Hb' as <-. rewrite Hd in Hd'.
                 now injection Hd' as <-.
           ++ simpl. split; [discriminate | intros E; now elim E].
        -- split; [|simpl; split; [discriminate | reflexivity]].
           intros item. split; [discriminate|].
           intros (r & b & [= <-] & _ & Hb' & Hd').
           rewrite Hb in Hb'. injection Hb' as <-. rewrite Hd in Hd'. discriminate.
      * split; [|simpl; split; [discriminate | reflexivity]].
        intros item. split; [discriminate|].
        intros (r & b & [= <-] & _ & Hb' & _). rewrite Hb in Hb'. discriminate.
  - split; [|simpl; split; [discriminate | reflexivity]].
    intros item. split; [discriminate|]. intros (r & b & Hr & _). discriminate.
Qed.

(** X6. [LoadRaw] returns exactly one of an item and an error. The item is
    returned exactly when the exchange gave a response with a status of at
    most 299 whose body can be read and decodes to that item. A status 404
    is an error like any other status above 299, not an empty result. *)
Theorem X6_LoadRaw_result (c : Client) (itemKey : string) (w : World) :
  let out := fst (exchange c "GET" (url c "/item/%s" [itemKey]) None None w) in
  let res := fst (LoadRaw c itemKey w) in
  (forall item, res = (Some item, None) <->
     exists resp body, out = Ok resp /\ StatusCode resp <= 299 /\
       ReadAll_Body resp = Ok body /\ json_Unmarshal_I body = Ok item) /\
  (fst res = None <-> snd res <> None) /\
  (forall resp, out = Ok resp -> StatusCode resp = 404 ->
     res = (None, Some ("cannot get item, source server responded with: " +:+
                        Status resp))).
Proof.
  intros out res. subst out res. rewrite LoadRaw_exchange, through_result.
  destruct (itemResult_cases
              (fst (exchange c "GET" (url c "/item/%s" [itemKey]) None None w)))
    as [H1 H2].
  split; [exact H1|]. split; [exact H2|].
  intros resp -> H404. unfold itemResult. rewrite H404. reflexivity.
Qed.

(** X7. A raw pop returns the empty result, no item and no error, exactly
    when the exchange gave a response with status 404; it returns an item
    exactly for a response with a status of at most 299 whose body can be
    read and decodes to that item; it never returns an item together with
    an error. *)
Theorem X7_pop_raw_result (k : Pop) (c : Client) (itemType : string) (w : World) :
  let out := fst (exchange c "DELETE" (url c (popRoute k) [itemType]) None None w) in
  let res := fst (popRaw k c itemType w) in
  (res = (None, None) <-> exists resp, out = Ok resp /\ StatusCode resp = 404) /\
  (forall item, res = (Some item, None) <->
     exists resp body, out = Ok resp /\ StatusCode resp <= 299 /\
       ReadAll_Body resp = Ok body /\ json_Unmarshal_I body = Ok item) /\
  (fst res <> None -> snd res = None).
Proof.
  intros out res.
  assert (Hres : res = popResult out).
  { subst out res. destruct k; simpl popRaw; simpl popRoute;
      [rewrite PopOldestRaw_exchange | rewrite PopNewestRaw_exchange];
      apply through_result. }
  rewrite Hres. clear Hres res. generalize out. clear out. intros out.
  destruct (itemResult_cases out) as [H1 H2].
  unfold popResult. destruct out as [resp|e].
  - destruct (Z.eqb_spec (StatusCode resp) StatusNotFound) as [E|NE].
    + unfold StatusNotFound in E. split; [|split].
      * split; [|reflexivity]. intros _. now exists resp.
      * intros item. split; [discriminate|].
        intros (r & b & [= <-] & Hr & _). lia.
      * simpl. intros Hn. now elim Hn.
    + split; [|split].
      * split.
        -- intros E. rewrite E in H2. simpl in H2. destruct H2 as [H2 _].
           exfalso. now apply H2.
        -- intros (r & [= <-] & Hr). unfold StatusNotFound in NE. contradiction.
      * exact H1.
      * intros Hn. destruct (itemResult (Ok resp)) as [[i|] er] eqn:Hi; simpl in *.
        -- destruct er as [e|]; [|reflexivity].
           destruct H2 as [_ H2]. exfalso.
           assert (Some e <> None) as Hne by discriminate.
           specialize (H2 Hne). discriminate.
        -- now elim Hn.
  - split; [|split].
    + split; [discriminate|]. intros (r & Hr & _). discriminate.
    + exact H1.
    + simpl. intros Hn. now elim Hn.
Qed.

End ResultProperties.

Section MoreResultProperties.

Context `{Env, Codecs}.

Lemma itemsResult_outcome (what : string) (out : result Response) :
  listOutcome what (itemsResult what out) out.
Proof.
  unfold listOutcome, itemsResult. destruct out as [resp|e].
  - destruct (Z.ltb_spec 299 (StatusCode resp)).
    + repeat apply conj; simpl.
      * reflexivity.
      * intros items. split; [discriminate|].
        intros (r & b & [= <-] & Hr & _). lia.
      * discriminate.
      * intros r [= <-] _. reflexivity.
    + destruct (ReadAll_Body resp) as [body|re] eqn:Hb.
      * destruct (json_Unmarshal_IL body) as [its|de] eqn:Hd.
        -- repeat apply conj; simpl.
           ++ discriminate.
           ++ intros items. split.
              ** intros [= <-]. exists resp, body. repeat split; auto; lia.
              ** intros (r & b & [= <-] & _ & Hb' & Hd').
                 rewrite Hb in Hb'. injection Hb' as <-. rewrite Hd in Hd'.
                 now injection Hd' as <-.
           ++ discriminate.
           ++ intros r [= <-] Hr. lia.
        -- repeat apply conj; simpl.
           ++ reflexivity.
           ++ intros items. split; [discriminate|].
              intros (r & b & [= <-] & _ & Hb' & Hd').
              rewrite Hb in Hb'. injection Hb' as <-. rewrite Hd in Hd'. discriminate.
           ++ discriminate.
           ++ intros r [= <-] Hr. lia.
      * repeat apply conj; simpl.
        -- reflexivity.
        -- intros items. split; [discriminate|].
           intros (r & b & [= <-] & _ & Hb' & _). rewrite Hb in Hb'. discriminate.
        -- discriminate.
        -- intros r [= <-] Hr. lia.
  - repeat apply conj; simpl.
    + reflexivity.
    + intros items. split; [discriminate|]. intros (r & b & Hr & _). discriminate.
    + intros e' [= <-]. reflexivity.
    + discriminate.
Qed.

(** X8. The four raw list reads return the decoded list exactly when the
    exchange gave a response with a status of at most 299 whose body can
    be read and decoded; otherwise they return an error together with the
    nil list: the error of the exchange as it is, or for a status above
    299 an error that ends with the status text. *)
Theorem X8_list_read_results (c : Client) (w : World) :
  (forall tags,
     listOutcome "cannot get tagged items, source server responded with: "
       (fst (LoadItemsByTagRaw c tags w))
       (fst (exchange c "GET" (url c "/item/tag/%s" [Join tags "|"]) None None w))) /\
  (forall itemType,
     listOutcome ("cannot get item for type '" +:+ itemType +:+
                  "', source server responded with: ")
       (fst (LoadItemsByTypeRaw c itemType w))
       (fst (exchange c "GET" (url c "/item/type/%s" [itemType]) None None w))) /\
  (forall itemKey,
     listOutcome "cannot get children for item, source server responded with: "
       (fst (LoadChildrenRaw c itemKey w))
       (fst (exchange c "GET" (url c "/item/%s/children" [itemKey]) None None w))) /\
  (forall itemKey,
     listOutcome "cannot get parents for item, source server responded with: "
       (fst (LoadParentsRaw c itemKey w))
       (fst (exchange c "GET" (url c "/item/%s/parents" [itemKey]) None None w))).
Proof.
  repeat apply conj; intros.
  - rewrite LoadItemsByTagRaw_exchange, through_result. apply itemsResult_outcome.
  - rewrite LoadItemsByTypeRaw_exchange, through_result. apply itemsResult_outcome.
  - rewrite LoadChildrenRaw_exchange, through_result. apply itemsResult_outcome.
  - rewrite LoadParentsRaw_exchange, through_result. apply itemsResult_outcome.
Qed.

(** X9. For an item that passes its validation, is not a pointer and can
    be encoded, and a non-empty item type, [Save] returns nil
    exactly when the exchange gave a response with a status of at most
    299; an error of the exchange is returned as it is; for a status above
    299 the error holds the status text, a comma, and the body when it
    could be read and is not empty. *)
Theorem X9_Save_result {A} `{Valid A, Item A} (c : Client) (key itemType : string)
    (item : A) (w : World) (objBytes : bytes) :
  Validate item = None ->
  Kind_eqb (KindOf item) Ptr = false ->
  (String.length itemType =? 0)%nat = false ->
  Marshal item = Ok objBytes ->
  let out := fst (exchange c "PUT" (url c "/item/%s" [resolveKey time_Now_UTC key])
                    (Some objBytes) (Some itemType) w) in
  let res := fst (Save c key itemType item w) in
  (res = None <-> exists resp, out = Ok resp /\ StatusCode resp <= 299) /\
  (forall e, out = Err e -> res = Some e) /\
  (forall resp, out = Ok resp -> 299 < StatusCode resp ->
     res = Some ("cannot save item, source server responded with: " +:+
                 Status resp +:+ ", " +:+
                 match ReadAll_Body resp with
                 | Ok body => String.string_of_list_byte body
                 | Err _ => EmptyString
                 end)).
Proof.
  intros Hv Hk Ht Hm out res. subst out res.
  rewrite (Save_exchange c key itemType item w objBytes Hv Hk Ht Hm).
  rewrite through_result.
  generalize (fst (exchange c "PUT" (url c "/item/%s" [resolveKey time_Now_UTC key])
                     (Some objBytes) (Some itemType) w)).
  intros out. split; [|split].
  - unfold saveResult. destruct out as [resp|e].
    + destruct (Z.ltb_spec 299 (StatusCode resp)).
      * split; [discriminate|]. intros (r & [= <-] & Hr). lia.
      * split; [|reflexivity]. intros _. exists resp. split; [reflexivity | lia].
    + split; [discriminate|]. intros (r & Hr & _). discriminate.
  - intros e Hout. subst out. reflexivity.
  - intros resp Hout Hr. subst out. unfold saveResult.
    destruct (Z.ltb_spec 299 (StatusCode resp)); [|lia].
    destruct (ReadAll_Body resp) as [[|b body]|]; reflexivity.
Qed.

(** X10. When the item cannot be encoded, [Save] returns the error of the
    encoder and nothing is built or sent. *)
Theorem X10_Save_encoding_failure {A} `{Valid A, Item A} (c : Client)
    (key itemType : string) (item : A) (w : World) (e : string) :
  Validate item = None ->
  Kind_eqb (KindOf item) Ptr = false ->
  (String.length itemType =? 0)%nat = false ->
  Marshal item = Err e ->
  Save c key itemType item w = (Some e, w).
Proof.
  intros Hv Hk Ht Hm. unfold Save. rewrite Hv, Hk, Ht, Hm. reflexivity.
Qed.

(** X11. [SetType] sends nothing unless the schema of the example, the
    example and the type description have all been encoded: the first
    encoding that fails gives the error that is returned, with the world
    left as it was. When all three succeed it makes one exchange, a PUT on
    the type route with the encoded description as body, and returns nil
    exactly for a response with a status of at most 299. *)
Theorem X11_SetType {A} `{Described A, Item A} (c : Client) (key : string)
    (obj : A) (w : World) :
  match Schema_Marshal obj with
  | Err e => SetType c key obj w = (Some e, w)
  | Ok schemaBytes =>
      match Marshal obj with
      | Err e => SetType c key obj w = (Some e, w)
      | Ok protoBytes =>
          match json_Marshal_TT {| TT_Key := key; Schema := schemaBytes;
                                   Proto := protoBytes |} with
          | Err e => SetType c key obj w = (Some e, w)
          | Ok infoBytes =>
              oneExchange c None w (snd (SetType c key obj w)) /\
              Forall (fun e => Method (requestOf e) = "PUT" /\
                        URL (requestOf e) = host c +:+ "/type" /\
                        Body (requestOf e) = Some infoBytes)
                     (added w (snd (SetType c key obj w))) /\
              statusOutcome "cannot set type, source server responded with: "
                (fst (SetType c key obj w))
                (fst (exchange c "PUT" (url c "/type" []) (Some infoBytes) None w))
          end
      end
  end.
Proof.
  destruct (Schema_Marshal obj) as [s|e] eqn:Hs;
    [|unfold SetType; rewrite Hs; reflexivity].
  destruct (Marshal obj) as [p|e] eqn:Hp;
    [|unfold SetType; rewrite Hs, Hp; reflexivity].
  destruct (json_Marshal_TT _) as [i|e] eqn:Hi;
    [|unfold SetType; rewrite Hs, Hp, Hi; reflexivity].
  rewrite (SetType_exchange c key obj w s p i Hs Hp Hi).
  rewrite through_result, through_world. split; [|split].
  - apply exchange_oneExchange.
  - apply exchange_route. rewrite url_eq. simpl Sprintf. reflexivity.
  - apply statusError_outcome.
Qed.

End MoreResultProperties.

Section TypedProperties.

Context `{Env, Codecs}.

Ltac run := unfold mbind, M_bind, mret, M_ret, NewRequest, emit; simpl.

Lemma Typed_result (i : I) (p : any) (w : World) :
  fst (fst (Typed i p w)) = p /\ trace (snd (Typed i p w)) = trace w.
Proof.
  unfold Typed, Unmarshal, onHeap. run.
  destruct (json_Unmarshal (Value i) p (heap w)). simpl. auto.
Qed.

Lemma convert_trace (i : I) (factory : Heap -> any * Heap) (w : World) :
  trace (snd (convert i factory w)) = trace w.
Proof.
  unfold convert, Unmarshal, onHeap. run.
  destruct (factory (heap w)) as [t h]. simpl.
  destruct (json_Unmarshal (Value i) t h). reflexivity.
Qed.

Lemma Typed_range_trace (factory : Heap -> any * Heap) (items : list I)
    (ii : list any) (w : World) :
  trace (snd (Typed_range items factory ii w)) = trace w.
Proof.
  revert ii w. induction items as [|item rest IH]; intros ii w; [reflexivity|].
  simpl. unfold mbind at 1, M_bind at 1.
  pose proof (convert_trace item factory w) as Hc.
  destruct (convert item factory w) as [[t [e|]] w1]; simpl in Hc.
  - simpl. exact Hc.
  - rewrite IH. exact Hc.
Qed.

(** X12. A prototype that is not a pointer is refused by [Load],
    [PopOldest] and [PopNewest] before anything else is done: the result
    is the nil interface with an error that names the function, and the
    world is left as it was. *)
Theorem X12_prototype_must_be_pointer (c : Client) (key : string) (p : any)
    (w : World) :
  Kind_eqb (reflect_Kind p) Ptr = false ->
  Load c key p w =
    ((Nil, Some "prototype argument passed to Load() must be a pointer"), w) /\
  PopOldest c key p w =
    ((Nil, Some "prototype argument passed to PopOldest() must be a pointer"), w) /\
  PopNewest c key p w =
    ((Nil, Some "prototype argument passed to PopNewest() must be a pointer"), w).
Proof.
  intros Hk. unfold Load, PopOldest, PopNewest. rewrite Hk. simpl. auto.
Qed.

(** X13. On an empty queue, that is when the exchange on the oldest route
    gave a response with status 404, both typed pops return a nil error
    and leave the heap alone, but their results differ: [PopOldest]
    returns the nil interface, [PopNewest] returns the nil item pointer
    held in an interface, which is not the nil interface. *)
Theorem X13_typed_pop_on_empty_queue (c : Client) (itemType : string) (p : any)
    (w : World) (resp : Response) :
  Kind_eqb (reflect_Kind p) Ptr = true ->
  fst (exchange c "DELETE" (url c "/item/pop/oldest/%s" [itemType]) None None w) =
    Ok resp ->
  StatusCode resp = 404 ->
  fst (PopOldest c itemType p w) = (Nil, None) /\
  fst (PopNewest c itemType p w) = (NilPtr, None) /\
  isNil NilPtr = false /\
  heap (snd (PopOldest c itemType p w)) = heap w /\
  heap (snd (PopNewest c itemType p w)) = heap w.
Proof.
  intros Hk Hout H404.
  assert (Hraw : fst (PopOldestRaw c itemType w) = (None, None)).
  { rewrite PopOldestRaw_exchange, through_result, Hout.
    unfold popResult. rewrite H404. reflexivity. }
  assert (Hheap : heap (snd (PopOldestRaw c itemType w)) = heap w).
  { assert (Hp : oneExchange c None w (snd (PopOldestRaw c itemType w))).
    { rewrite PopOldestRaw_exchange, through_world. apply exchange_oneExchange. }
    destruct (oneExchange_added _ _ _ _ Hp) as [Hh _]. exact Hh. }
  unfold PopOldest, PopNewest. rewrite Hk. run.
  destruct (PopOldestRaw c itemType w) as [[i err] w1]. simpl in *.
  injection Hraw as -> ->. simpl. auto.
Qed.

(** X14. The result of a typed read of one item is the prototype or a nil:
    [Load] returns the prototype itself whenever its error is nil, and
    otherwise the prototype or the nil interface; [PopOldest] returns the
    prototype or the nil interface; [PopNewest] returns the prototype, the
    nil interface or the nil item pointer. *)
Theorem X14_typed_read_results (c : Client) (key : string) (p : any) (w : World) :
  (snd (fst (Load c key p w)) = None -> fst (fst (Load c key p w)) = p) /\
  (fst (fst (Load c key p w)) = p \/ fst (fst (Load c key p w)) = Nil) /\
  (fst (fst (PopOldest c key p w)) = p \/ fst (fst (PopOldest c key p w)) = Nil) /\
  (fst (fst (PopNewest c key p w)) = p \/ fst (fst (PopNewest c key p w)) = Nil \/
   fst (fst (PopNewest c key p w)) = NilPtr).
Proof.
  assert (HL : fst (fst (LoadRaw c key w)) = None <-> snd (fst (LoadRaw c key w)) <> None).
  { rewrite LoadRaw_exchange, through_result. apply itemResult_cases. }
  unfold Load, PopOldest, PopNewest.
  destruct (negb (Kind_eqb (reflect_Kind p) Ptr)).
  { simpl. repeat split; auto; discriminate. }
  run.
  destruct (LoadRaw c key w) as [[li lerr] lw]. simpl in HL.
  destruct (PopOldestRaw c key w) as [[pi perr] pw].
  repeat apply conj.
  - destruct lerr; [discriminate|]. destruct li as [i|].
    + intros _. apply Typed_result.
    + exfalso. destruct HL as [HL _]. now apply HL.
  - destruct lerr; [now right|]. destruct li as [i|]; [left; apply Typed_result | now right].
  - destruct perr; [now right|]. destruct pi as [i|]; [left; apply Typed_result | now right].
  - destruct perr; [now (right; left)|].
    destruct pi as [i|]; [left; apply Typed_result | now (right; right)].
Qed.


(** The loop of [IL.Typed] with a slice already accumulated, against the
    loop started from nil. *)
Lemma Typed_range_acc (factory : Heap -> any * Heap) (items : list I)
    (ii : list any) (w : World) :
  Typed_range items factory ii w =
  let '((rs, err), w') := Typed_range items factory [] w in
  ((match err with None => ii ++ rs | Some _ => [] end, err), w').
Proof.
  revert ii w. induction items as [|item rest IH]; intros ii w.
  - simpl. unfold mret, M_ret. now rewrite app_nil_r.
  - simpl. unfold mbind, M_bind.
    destruct (convert item factory w) as [[t [e|]] w1]; [reflexivity|].
    rewrite (IH (ii ++ [t])), (IH ([] ++ [t])).
    destruct (Typed_range rest factory [] w1) as [[rs [e|]] w2]; [reflexivity|].
    now rewrite <- app_assoc.
Qed.

Lemma Typed_range_app (factory : Heap -> any * Heap) (a b : list I)
    (ii : list any) (w : World) :
  Typed_range (a ++ b) factory ii w =
  match Typed_range a factory ii w with
  | ((ra, None), w1) => Typed_range b factory ra w1
  | failed => failed
  end.
Proof.
  revert ii w. induction a as [|item rest IH]; intros ii w; [reflexivity|].
  simpl. unfold mbind, M_bind.
  destruct (convert item factory w) as [[t [e|]] w1]; [reflexivity|].
  apply IH.
Qed.

(** X15. [IL.Typed] stops at the first item that fails to decode: the
    items after it are not looked at, so appending items to a list whose
    conversion fails changes neither the result nor the world. *)
Theorem X15_IL_Typed_stops_at_first_failure (items more : IL)
    (factory : Heap -> any * Heap) (w : World) (e : string) :
  snd (fst (IL_Typed items factory w)) = Some e ->
  IL_Typed (items ++ more) factory w = IL_Typed items factory w.
Proof.
  unfold IL_Typed. intros He. rewrite Typed_range_app.
  destruct (Typed_range items factory [] w) as [[rs [e'|]] w1];
    [reflexivity | discriminate].
Qed.

(** X16. [IL.Typed] converts a list piece by piece: when the conversion of
    a first part succeeds, converting the whole list is converting the
    rest from the world the first part left, with the results of the first
    part in front of those of the rest, or nil when the rest fails. *)
Theorem X16_IL_Typed_append (a b : IL) (factory : Heap -> any * Heap)
    (w w1 : World) (ra : list any) :
  IL_Typed a factory w = ((ra, None), w1) ->
  IL_Typed (a ++ b) factory w =
  let '((rb, err), w2) := IL_Typed b factory w1 in
  ((match err with None => ra ++ rb | Some _ => [] end, err), w2).
Proof.
  unfold IL_Typed. intros Ha. rewrite Typed_range_app, Ha.
  apply Typed_range_acc.
Qed.

(** X17. The typed conversions make no request: [Typed] and [IL.Typed]
    leave the trace as it is, whatever the decoder and the factory do to
    the heap; and converting the empty list changes nothing at all. *)
Theorem X17_conversions_stay_local (i : I) (p : any) (items : IL)
    (factory : Heap -> any * Heap) (w : World) :
  trace (snd (Typed i p w)) = trace w /\
  trace (snd (IL_Typed items factory w)) = trace w /\
  IL_Typed [] factory w = (([], None), w).
Proof.
  split; [apply Typed_result|]. split; [apply Typed_range_trace | reflexivity].
Qed.

(** X18. The typed list reads are all-or-nothing as well: an error always
    comes with the nil sequence. When the raw read fails, its error is
    returned as it is and the factory is never called, the heap staying as
    it was; when it succeeds, the result is the conversion of the list it
    returned. No request is made beyond those of the raw read. *)
Theorem X18_typed_list_reads (c : Client) (factory : Heap -> any * Heap) (w : World) :
  (forall tags,
     typedListOutcome factory w (LoadItemsByTagRaw c tags w)
       (LoadItemsByTag c factory tags w)) /\
  (forall itemType,
     typedListOutcome factory w (LoadItemsByTypeRaw c itemType w)
       (LoadItemsByType c factory itemType w)) /\
  (forall itemKey,
     typedListOutcome factory w (LoadChildrenRaw c itemKey w)
       (LoadChildren c factory itemKey w)) /\
  (forall itemKey,
     typedListOutcome factory w (LoadParentsRaw c itemKey w)
       (LoadParents c factory itemKey w)).
Proof.
  assert (Hgen : forall (raw : M (IL * error)),
    oneExchange c None w (snd (raw w)) ->
    typedListOutcome factory w (raw w)
      (('(items, err) ← raw;
        match err with
        | Some err => mret ([], Some err)
        | None => IL_Typed items factory
        end) w)).
  { intros raw Hone. unfold typedListOutcome. run.
    destruct (oneExchange_added _ _ _ _ Hone) as [Hheap _].
    destruct (raw w) as [[items [e|]] w1]; simpl in *.
    - repeat apply conj; try reflexivity; try discriminate.
      + intros e' [= <-]. split; [reflexivity | exact Hheap].
    - pose proof (Typed_range_spec factory items [] w1) as H3.
      pose proof (Typed_range_trace factory items [] w1) as Ht.
      unfold IL_Typed in *.
      destruct (Typed_range items factory [] w1) as [[rs [e|]] w2]; simpl in *.
      + repeat apply conj; try reflexivity; try discriminate; try exact Ht.
        intros e' _. apply H3.
      + repeat apply conj; try reflexivity; try discriminate; exact Ht. }
  repeat apply conj; intros.
  - apply (Hgen (LoadItemsByTagRaw c tags)).
    rewrite LoadItemsByTagRaw_exchange, through_world. apply exchange_oneExchange.
  - apply (Hgen (LoadItemsByTypeRaw c itemType)).
    rewrite LoadItemsByTypeRaw_exchange, through_world. apply exchange_oneExchange.
  - apply (Hgen (LoadChildrenRaw c itemKey)).
    rewrite LoadChildrenRaw_exchange, through_world. apply exchange_oneExchange.
  - apply (Hgen (LoadParentsRaw c itemKey)).
    rewrite LoadParentsRaw_exchange, through_world. apply exchange_oneExchange.
Qed.

End TypedProperties.

(* ===================================================================== *)
(** * More on the key sequencer *)
(* ===================================================================== *)

Section KeyProperties.

Lemma occurrences_positive_Contains (c : ascii) (s : string) :
  (0 < occurrences c s)%nat -> strings.Contains s (String c EmptyString) = true.
Proof.
  intros Hpos. destruct (strings.Contains s (String c EmptyString)) eqn:Hc;
    [reflexivity|].
  apply Contains_byte_false in Hc. lia.
Qed.

(** X19. Resolving a key removes exactly one wildcard marker, or none when
    there is none; and for a wall clock time of the years 0 to 9999 it
    makes a key that holds a marker seventeen bytes longer, the marker
    giving way to the eighteen bytes of the timestamp. *)
Theorem X19_resolveKey_effect (now : time.Time) (key : string) :
  occurrences "?" (resolveKey now key) = Nat.pred (occurrences "?" key) /\
  (time.wellFormed now ->
   String.length (resolveKey now key) =
   if strings.Contains key "?" then (String.length key + 17)%nat
   else String.length key).
Proof.
  pose proof (resolveKey_meets_spec now key) as Hs.
  pose proof (Format_no_marker now) as Hst.
  pose proof (Format_length now) as Hlen.
  remember (resolveKey now key) as k eqn:Hk. clear Hk.
  remember (time.Format_20060102150405_000 now) as stamp eqn:Hstamp. clear Hstamp.
  destruct Hs as [key Hc | before after Hc].
  - split.
    + apply Contains_byte_false in Hc. rewrite Hc. reflexivity.
    + intros _. rewrite Hc. reflexivity.
  - apply Contains_byte_false in Hc. split.
    + rewrite !occurrences_append, Hc, Hst. reflexivity.
    + intros Hw. rewrite occurrences_positive_Contains.
      * rewrite !length_append, (Hlen Hw). simpl. lia.
      * rewrite !occurrences_append. simpl. lia.
Qed.

Lemma decimal_from_append (acc : Z) (a b : string) :
  decimal_from acc (a +:+ b) = decimal_from (decimal_from acc a) b.
Proof.
  revert acc. induction a as [|d a IH]; intros acc; [reflexivity|].
  rewrite append_cons. simpl. apply IH.
Qed.

Lemma digit_value (d : Z) :
  0 <= d < 10 -> Z.of_nat (nat_of_ascii (time.digit d)) - 48 = d.
Proof.
  intros Hd. unfold time.digit.
  rewrite nat_ascii_embedding by lia. lia.
Qed.

Lemma decimal_from_zeros (k : nat) (s : string) :
  decimal_from 0 (time.zeros k +:+ s) = decimal_from 0 s.
Proof.
  induction k as [|k IH]; [reflexivity|].
  simpl time.zeros. rewrite append_cons. exact IH.
Qed.

Lemma decimal_utoa (fuel : nat) (n : Z) :
  0 <= n < 2 ^ Z.of_nat fuel -> decimal (time.utoa fuel n) = n.
Proof.
  unfold decimal. revert n. induction fuel as [|fuel IH]; intros n Hn.
  - simpl in *. lia.
  - simpl time.utoa. destruct (Z.ltb_spec n 10).
    + simpl. rewrite digit_value; lia.
    + rewrite decimal_from_append, IH.
      * simpl. rewrite digit_value by (apply Z.mod_pos_bound; lia).
        pose proof (Z.div_mod n 10). lia.
      * rewrite Nat2Z.inj_succ, Z.pow_succ_r in Hn by lia.
        split; [apply Z.div_pos; lia|].
        apply Z.div_lt_upper_bound; lia.
Qed.

Lemma decimal_appendInt (x : Z) (width : nat) :
  0 <= x -> decimal (time.appendInt x width) = x.
Proof.
  intros Hx. unfold time.appendInt, decimal.
  destruct (Z.ltb_spec x 0); [lia|].
  rewrite Z.abs_eq by lia. rewrite append_empty_l, decimal_from_zeros.
  apply decimal_utoa. split; [exact Hx|].
  destruct (Z.eq_dec x 0) as [->|Hne]; [reflexivity|].
  rewrite Nat2Z.inj_succ, Z2Nat.id by apply Z.log2_nonneg.
  apply Z.log2_spec. lia.
Qed.

Lemma append_inj_length (a a' b b' : string) :
  String.length a = String.length a' -> a +:+ b = a' +:+ b' -> a = a' /\ b = b'.
Proof.
  revert a'. induction a as [|x a IH]; intros [|x' a'] Hl Heq;
    try discriminate; [now split|].
  rewrite !append_cons in Heq. injection Heq as -> Heq. injection Hl as Hl.
  destruct (IH a' Hl Heq) as [-> ->]. now split.
Qed.

Lemma append_cancel_l (a b b' : string) : a +:+ b = a +:+ b' -> b = b'.
Proof.
  induction a as [|x a IH]; [trivial|].
  rewrite !append_cons. intros [= Heq]. now apply IH.
Qed.

Lemma appendInt_inj (x y : Z) (width : nat) :
  0 <= x -> 0 <= y -> time.appendInt x width = time.appendInt y width -> x = y.
Proof.
  intros Hx Hy Heq.
  rewrite <- (decimal_appendInt x width Hx),
          <- (decimal_appendInt y width Hy).
  now rewrite Heq.
Qed.

Lemma Format_sameMillisecond (t1 t2 : time.Time) :
  sameMillisecond t1 t2 ->
  time.Format_20060102150405_000 t1 = time.Format_20060102150405_000 t2.
Proof.
  intros (Hy & Hmo & Hd & Hh & Hmi & Hs & Hn).
  unfold time.Format_20060102150405_000.
  now rewrite Hy, Hmo, Hd, Hh, Hmi, Hs, Hn.
Qed.

Lemma Format_inj (t1 t2 : time.Time) :
  time.wellFormed t1 -> time.wellFormed t2 ->
  time.Format_20060102150405_000 t1 = time.Format_20060102150405_000 t2 ->
  sameMillisecond t1 t2.
Proof.
  intros (Hy1 & Hmo1 & Hd1 & Hh1 & Hmi1 & Hs1 & Hn1)
         (Hy2 & Hmo2 & Hd2 & Hh2 & Hmi2 & Hs2 & Hn2).
  assert (Hms1 : 0 <= time.Nano t1 / 1000000 < 1000).
  { split; [apply Z.div_pos; lia | apply Z.div_lt_upper_bound; lia]. }
  assert (Hms2 : 0 <= time.Nano t2 / 1000000 < 1000).
  { split; [apply Z.div_pos; lia | apply Z.div_lt_upper_bound; lia]. }
  unfold time.Format_20060102150405_000, sameMillisecond. intros Heq.
  repeat match type of Heq with
  | time.appendInt ?x ?w +:+ _ = time.appendInt ?y ?w +:+ _ =>
      let Hp := fresh "Hp" in
      apply append_inj_length in Heq;
        [destruct Heq as [Hp Heq]; apply appendInt_inj in Hp; [|lia|lia]
        |rewrite !appendInt_length; [reflexivity | lia | lia | lia | lia]]
  end.
  apply (append_cancel_l ".") in Heq. apply appendInt_inj in Heq; [|lia|lia].
  repeat split; assumption.
Qed.

Lemma resolveKey_split (key : string) :
  strings.Contains key "?" = true ->
  exists before after, forall t,
    resolveKey t key = before +:+ time.Format_20060102150405_000 t +:+ after.
Proof.
  intros Hc. unfold resolveKey. rewrite Hc. unfold strings.Contains in Hc.
  simpl strings.Replace.
  destruct (strings.Index key "?") as [j|]; [|discriminate].
  exists (strings.take j key), (strings.drop (j + 1) key). reflexivity.
Qed.

(** X20. The timestamp tells the millisecond and nothing finer. Two wall
    clock times of the years 0 to 9999 give the same timestamp, and so the
    same key for a pattern with a marker, exactly when they lie in the
    same millisecond: two saves within one millisecond collide, two saves
    in different milliseconds never do. *)
Theorem X20_stamp_identifies_millisecond (t1 t2 : time.Time) (key : string) :
  time.wellFormed t1 -> time.wellFormed t2 ->
  (time.Format_20060102150405_000 t1 = time.Format_20060102150405_000 t2 <->
   sameMillisecond t1 t2) /\
  (strings.Contains key "?" = true ->
   (resolveKey t1 key = resolveKey t2 key <-> sameMillisecond t1 t2)).
Proof.
  intros Hw1 Hw2. split.
  - split; [now apply Format_inj | apply Format_sameMillisecond].
  - intros Hc. destruct (resolveKey_split key Hc) as (before & after & Hr).
    rewrite !Hr. split.
    + intros Heq. apply append_cancel_l in Heq.
      apply append_inj_length in Heq; [|now rewrite !Format_length].
      apply Format_inj; tauto.
    + intros Hs. now rewrite (Format_sameMillisecond _ _ Hs).
Qed.

End KeyProperties.

Section OrderProperties.

Lemma compare_append (a a' b b' : string) :
  String.length a = String.length a' ->
  String.compare (a +:+ b) (a' +:+ b') = lex (String.compare a a') (String.compare b b').
Proof.
  revert a'. induction a as [|x a IH]; intros [|x' a'] Hl; try discriminate;
    [reflexivity|].
  rewrite !append_cons. simpl. injection Hl as Hl.
  destruct (Ascii.compare x x'); [now apply IH | reflexivity | reflexivity].
Qed.

Lemma compare_refl (s : string) : String.compare s s = Eq.
Proof.
  induction s as [|a s IH]; [reflexivity|]. simpl.
  unfold Ascii.compare. now rewrite N.compare_refl.
Qed.

Lemma compare_prefix (a b b' : string) :
  String.compare (a +:+ b) (a +:+ b') = String.compare b b'.
Proof. rewrite compare_append by reflexivity. now rewrite compare_refl. Qed.

Lemma digit_compare (a b : Z) :
  0 <= a < 10 -> 0 <= b < 10 ->
  Ascii.compare (time.digit a) (time.digit b) = (a ?= b).
Proof.
  intros Ha Hb. unfold Ascii.compare, time.digit, ascii_of_nat.
  rewrite !N_ascii_embedding by lia.
  rewrite <- N2Z.inj_compare, !nat_N_Z, !Nat2Z.inj_add, !Z2Nat.id by lia.
  apply Z.add_compare_mono_l.
Qed.

Lemma compare_byte (a b : ascii) :
  String.compare (String a EmptyString) (String b EmptyString) = Ascii.compare a b.
Proof. simpl. now destruct (Ascii.compare a b). Qed.

Lemma fixedDigits_length (w : nat) (x : Z) : String.length (fixedDigits w x) = w.
Proof.
  revert x. induction w as [|w IH]; intros x; [reflexivity|].
  simpl fixedDigits. rewrite length_append, IH. simpl. lia.
Qed.

Lemma fixedDigits_zero (w : nat) : fixedDigits w 0 = time.zeros w.
Proof.
  induction w as [|w IH]; [reflexivity|].
  simpl fixedDigits. change (0 / 10) with 0. rewrite IH.
  clear IH. induction w as [|w IH]; [reflexivity|].
  simpl time.zeros. rewrite append_cons. now rewrite IH.
Qed.

(** Numbers compare as their last [w] digits compare. *)
Lemma fixedDigits_compare (w : nat) (x y : Z) :
  0 <= x < 10 ^ Z.of_nat w -> 0 <= y < 10 ^ Z.of_nat w ->
  String.compare (fixedDigits w x) (fixedDigits w y) = (x ?= y).
Proof.
  revert x y. induction w as [|w IH]; intros x y Hx Hy.
  - simpl in *. assert (x = 0) by lia. assert (y = 0) by lia. now subst.
  - rewrite Nat2Z.inj_succ, Z.pow_succ_r in Hx, Hy by lia.
    simpl fixedDigits. rewrite compare_append by now rewrite !fixedDigits_length.
    rewrite IH.
    + rewrite compare_byte, digit_compare by (apply Z.mod_pos_bound; lia).
      pose proof (Z.div_mod x 10 ltac:(lia)) as Ex.
      pose proof (Z.div_mod y 10 ltac:(lia)) as Ey.
      pose proof (Z.mod_pos_bound x 10 ltac:(lia)).
      pose proof (Z.mod_pos_bound y 10 ltac:(lia)).
      destruct (Z.compare_spec (x / 10) (y / 10)) as [E|L|G]; unfold lex.
      * destruct (Z.compare_spec (x mod 10) (y mod 10));
          symmetry; [apply Z.compare_eq_iff | apply Z.compare_lt_iff
                    | apply Z.compare_gt_iff]; lia.
      * symmetry. apply Z.compare_lt_iff. lia.
      * symmetry. apply Z.compare_gt_iff. lia.
    + split; [apply Z.div_pos; lia | apply Z.div_lt_upper_bound; lia].
    + split; [apply Z.div_pos; lia | apply Z.div_lt_upper_bound; lia].
Qed.

Lemma padded_utoa_fixed (fuel w : nat) (x : Z) :
  0 <= x < 10 ^ Z.of_nat w -> x < 2 ^ Z.of_nat fuel -> (1 <= w)%nat ->
  time.zeros (w - String.length (time.utoa fuel x)) +:+ time.utoa fuel x =
  fixedDigits w x.
Proof.
  revert w x. induction fuel as [|fuel IH]; intros w x Hx Hf Hw.
  - simpl in Hf. assert (x = 0) by lia. subst x. simpl.
    rewrite append_empty_r, Nat.sub_0_r. symmetry. apply fixedDigits_zero.
  - simpl time.utoa. destruct w as [|w]; [lia|].
    destruct (Z.ltb_spec x 10).
    + simpl String.length. simpl fixedDigits.
      rewrite Z.div_small, Z.mod_small, fixedDigits_zero by lia.
      replace (S w - 1)%nat with w by lia. reflexivity.
    + rewrite Nat2Z.inj_succ, Z.pow_succ_r in Hx, Hf by lia.
      rewrite length_append. simpl String.length. simpl fixedDigits.
      replace (S w - (String.length (time.utoa fuel (x / 10)) + 1))%nat
        with (w - String.length (time.utoa fuel (x / 10)))%nat by lia.
      rewrite <- append_assoc. f_equal.
      destruct w as [|w].
      * simpl in Hx. lia.
      * apply IH; [|apply Z.div_lt_upper_bound; lia | lia].
        split; [apply Z.div_pos; lia | apply Z.div_lt_upper_bound; lia].
Qed.

Lemma appendInt_fixed (x : Z) (w : nat) :
  0 <= x < 10 ^ Z.of_nat w -> (1 <= w)%nat -> time.appendInt x w = fixedDigits w x.
Proof.
  intros Hx Hw. unfold time.appendInt.
  destruct (Z.ltb_spec x 0); [lia|].
  rewrite Z.abs_eq, append_empty_l by lia.
  apply padded_utoa_fixed; [exact Hx | | exact Hw].
  destruct (Z.eq_dec x 0) as [->|Hne]; [reflexivity|].
  rewrite Nat2Z.inj_succ, Z2Nat.id by apply Z.log2_nonneg.
  apply Z.log2_spec. lia.
Qed.

Lemma appendInt_compare (x y : Z) (w : nat) :
  0 <= x < 10 ^ Z.of_nat w -> 0 <= y < 10 ^ Z.of_nat w -> (1 <= w)%nat ->
  String.compare (time.appendInt x w) (time.appendInt y w) = (x ?= y).
Proof.
  intros Hx Hy Hw. rewrite !appendInt_fixed by assumption.
  now apply fixedDigits_compare.
Qed.

(** X21. The timestamps sort like the times: for two wall clock times of
    the years 0 to 9999, comparing their timestamps byte by byte gives the
    order of the times down to the millisecond; and so does comparing the
    keys made from one pattern with a marker. *)
Theorem X21_stamps_sort_chronologically (t1 t2 : time.Time) (key : string) :
  time.wellFormed t1 -> time.wellFormed t2 ->
  String.compare (time.Format_20060102150405_000 t1)
                 (time.Format_20060102150405_000 t2) = compareTime t1 t2 /\
  (strings.Contains key "?" = true ->
   String.compare (resolveKey t1 key) (resolveKey t2 key) = compareTime t1 t2).
Proof.
  intros Hw1 Hw2.
  assert (Hstamp : String.compare (time.Format_20060102150405_000 t1)
                     (time.Format_20060102150405_000 t2) = compareTime t1 t2).
  { destruct Hw1 as (Hy1 & Hmo1 & Hd1 & Hh1 & Hmi1 & Hs1 & Hn1).
    destruct Hw2 as (Hy2 & Hmo2 & Hd2 & Hh2 & Hmi2 & Hs2 & Hn2).
    assert (Hms1 : 0 <= time.Nano t1 / 1000000 < 1000).
    { split; [apply Z.div_pos; lia | apply Z.div_lt_upper_bound; lia]. }
    assert (Hms2 : 0 <= time.Nano t2 / 1000000 < 1000).
    { split; [apply Z.div_pos; lia | apply Z.div_lt_upper_bound; lia]. }
    unfold time.Format_20060102150405_000, compareTime.
    repeat (rewrite compare_append
              by (rewrite !appendInt_length; [reflexivity | lia | lia | lia | lia]);
            rewrite appendInt_compare by lia; f_equal).
    rewrite (compare_prefix "."). apply appendInt_compare; lia. }
  split; [exact Hstamp|].
  intros Hc. destruct (resolveKey_split key Hc) as (before & after & Hr).
  rewrite !Hr, compare_prefix.
  rewrite compare_append by now rewrite !Format_length.
  rewrite Hstamp, compare_refl. now destruct (compareTime t1 t2).
Qed.

End OrderProperties.

Section LegacyProperties.

Context `{Env}.

(** X22. In the earlier revision of the client, [Save] refuses an empty
    item type before anything is built, encodes the item without
    validating it, and makes at most one round trip, with no retry; what
    it builds and sends is a PUT on the item route of the resolved key. *)
Theorem X22_Legacy_Save {A} `{Item A} (c : Legacy.Client) (key itemType : string)
    (item : A) (w : World) :
  Legacy.Save c key EmptyString item w =
    (Some "item type is required to validate the item data", w) /\
  (countSent (added w (snd (Legacy.Save c key itemType item w))) <= 1)%nat /\
  Forall (fun e => Method (requestOf e) = "PUT" /\
            URL (requestOf e) =
              Legacy.host c +:+ "/item/" +:+ resolveKey time_Now_UTC key)
         (added w (snd (Legacy.Save c key itemType item w))).
Proof.
  split; [reflexivity|].
  pose proof (Legacy_Save_dispatches c key itemType item w) as Hd. split.
  - exact (dispatches_budget _ _ _ _ Hd).
  - exact (dispatches_added _ _ _ _ Hd).
Qed.

End LegacyProperties.

(* ===================================================================== *)
(** * The further properties at the test bench *)
(* ===================================================================== *)

Lemma clock1_wellFormed : time.wellFormed clock1.
Proof. unfold time.wellFormed, clock1. simpl. lia. Defined.

Lemma clock2_wellFormed : time.wellFormed clock2.
Proof. unfold time.wellFormed, clock2. simpl. lia. Defined.

Lemma clock3_wellFormed : time.wellFormed clock3.
Proof. unfold time.wellFormed, clock3. simpl. lia. Defined.

(** X9, at a server that answers 200: saving valid options returns nil. *)
Lemma X9_witness :
  fst (Save (H := benchOK) (testClient (H := benchOK)) "OPT_1" "AAA"
         (mkClientOptions false (60 * time.Second))
         (benchWorld (fun _ _ => Ok okResponse) (fun _ => false))) = None.
Proof.
  apply (proj1 (@X9_Save_result benchOK ClientOptions ClientOptions_Valid
                  ClientOptions_Item (testClient (H := benchOK)) "OPT_1" "AAA"
                  (mkClientOptions false (60 * time.Second))
                  (benchWorld (fun _ _ => Ok okResponse) (fun _ => false))
                  (String.list_byte_of_string
                     (ClientOptions_json (mkClientOptions false (60 * time.Second))))
                  eq_refl eq_refl eq_refl eq_refl)).
  exists okResponse. split; [vm_compute; reflexivity | discriminate].
Defined.

(** X10, at the bench: an item that cannot be encoded is refused with the
    encoder's error and the world is as before. *)
Lemma X10_witness :
  Save (H := benchNotFound) (testClient (H := benchNotFound)) "OPT_1" "AAA" unencodable
       (benchWorld _ _) =
  (Some "json: unsupported type: chan int", benchWorld _ _).
Proof.
  exact (@X10_Save_encoding_failure benchNotFound Unencodable Unencodable_Valid
           Unencodable_Item (testClient (H := benchNotFound))
           "OPT_1" "AAA" unencodable (benchWorld _ _) "json: unsupported type: chan int"
           eq_refl eq_refl eq_refl eq_refl).
Defined.

(** X12, at the bench: a struct passed by value as prototype. *)
Lemma X12_witness :
  Load (H := benchNotFound) (testClient (H := benchNotFound)) "OPT_1" (Boxed Struct)
       (benchWorld _ _) =
  ((Nil, Some "prototype argument passed to Load() must be a pointer"), benchWorld _ _).
Proof.
  exact (proj1 (X12_prototype_must_be_pointer (H := benchNotFound)
                  (testClient (H := benchNotFound)) "OPT_1" (Boxed Struct)
                  (benchWorld _ _) eq_refl)).
Defined.

(** X13, at a server that answers 404 to every request. *)
Lemma X13_witness :
  fst (PopOldest (H := benchNotFound) (testClient (H := benchNotFound)) "AAA" (PtrTo 0%nat)
         (benchWorld (fun _ _ => Ok notFound) (fun _ => false))) = (Nil, None) /\
  fst (PopNewest (H := benchNotFound) (testClient (H := benchNotFound)) "AAA" (PtrTo 0%nat)
         (benchWorld (fun _ _ => Ok notFound) (fun _ => false))) = (NilPtr, None).
Proof.
  pose proof (X13_typed_pop_on_empty_queue (H := benchNotFound)
                (testClient (H := benchNotFound)) "AAA" (PtrTo 0%nat)
                (benchWorld (fun _ _ => Ok notFound) (fun _ => false)) notFound
                eq_refl eq_refl eq_refl) as (Ho & Hn & _).
  exact (conj Ho Hn).
Defined.

(** X15, at the bench: an item with an empty value fails to decode, and
    what follows it in the list is not looked at. *)
Lemma X15_witness :
  IL_Typed (H := benchNotFound) ([goodItem; badItem] ++ [goodItem]) nextSlot
           (benchWorld _ _) =
  IL_Typed (H := benchNotFound) [goodItem; badItem] nextSlot (benchWorld _ _).
Proof.
  exact (X15_IL_Typed_stops_at_first_failure (H := benchNotFound) [goodItem; badItem]
           [goodItem] nextSlot (benchWorld _ _) "unexpected end of JSON input" eq_refl).
Defined.

(** X16, at the bench: two items converted one after the other. *)
Lemma X16_witness :
  IL_Typed (H := benchNotFound) ([goodItem] ++ [goodItem]) nextSlot (benchWorld _ _) =
  let '((rb, err), w2) :=
    IL_Typed (H := benchNotFound) [goodItem] nextSlot
      (snd (IL_Typed (H := benchNotFound) [goodItem] nextSlot (benchWorld _ _))) in
  ((match err with None => [PtrTo 0%nat] ++ rb | Some _ => [] end, err), w2).
Proof.
  exact (X16_IL_Typed_append (H := benchNotFound) [goodItem] [goodItem] nextSlot
           (benchWorld _ _)
           (snd (IL_Typed (H := benchNotFound) [goodItem] nextSlot (benchWorld _ _)))
           [PtrTo 0%nat] eq_refl).
Defined.

(** X20, for two times in one millisecond: the same resolved key. *)
Lemma X20_witness :
  resolveKey clock1 "OPT_?" = resolveKey clock2 "OPT_?" <->
  sameMillisecond clock1 clock2.
Proof.
  exact (proj2 (X20_stamp_identifies_millisecond clock1 clock2 "OPT_?"
                  clock1_wellFormed clock2_wellFormed) eq_refl).
Defined.

(** X21, for two times one millisecond apart: the resolved keys are in
    order. *)
Lemma X21_witness :
  String.compare (resolveKey clock2 "OPT_?") (resolveKey clock3 "OPT_?") = Lt.
Proof.
  exact (proj2 (X21_stamps_sort_chronologically clock2 clock3 "OPT_?"
                  clock2_wellFormed clock3_wellFormed) eq_refl).
Defined.
